(** * docx-redactor: a shallow embedding of [search_replace.py]

    The development follows the Python module top-down:

    - a small model of the Python run time the module relies on (exceptions
      and their class hierarchy, [str] operations, dictionaries);
    - the parts of [xml.etree.ElementTree] and [zipfile] that the module
      calls, at the level of their documented behaviour;
    - [replace_namespaces_method], [update_zip] and the methods of
      [DocxRedactor], written in a state-and-exception monad over the
      process state;
    - the properties of the specification, proved or refuted on these
      definitions.

    The module calls [Element.getiterator], which Python 3.9 removed; the
    library is modelled as of Python 3.8, where [open] can succeed.

    Strings are sequences of code points below 256.  Byte strings are
    modelled by the same type. *)

From stdpp Require Import base strings gmap list sorting stringmap pretty.
From Stdlib Require Import Ascii String.

Set Warnings "-register-all,-clear-no-such-hyp".
Set Default Proof Using "Type".

(* ================================================================== *)
(** * Python run time *)
(* ================================================================== *)

(** ** Exceptions *)

(** The exception classes that can arise in the module, with the part of the
    built-in hierarchy above them.  [ParseError] is
    [xml.etree.ElementTree.ParseError], [BadZipFile] is [zipfile.BadZipFile]. *)
Inductive exc_class : Set :=
| BaseException
| Exception
| LookupError
| KeyError
| IndexError
| ValueError
| SyntaxError
| ParseError
| AttributeError
| TypeError
| OSError
| FileNotFoundError
| BadZipFile.

Global Instance exc_class_eq_dec : EqDecision exc_class.
Proof. solve_decision. Defined.

(** The direct base class ([cls.__bases__]). *)
Definition base_class (c : exc_class) : option exc_class :=
  match c with
  | BaseException => None
  | Exception => Some BaseException
  | LookupError => Some Exception
  | KeyError => Some LookupError
  | IndexError => Some LookupError
  | ValueError => Some Exception
  | SyntaxError => Some Exception
  | ParseError => Some SyntaxError
  | AttributeError => Some Exception
  | TypeError => Some Exception
  | OSError => Some Exception
  | FileNotFoundError => Some OSError
  | BadZipFile => Some Exception
  end.

(** [cls.__mro__]: the class and its bases, most derived first.  The
    hierarchy above has depth four. *)
Fixpoint mro_upto (depth : nat) (c : exc_class) : list exc_class :=
  match depth with
  | 0 => [c]
  | S d => c :: match base_class c with
                | Some b => mro_upto d b
                | None => []
                end
  end.

Definition mro (c : exc_class) : list exc_class := mro_upto 4 c.

Definition issubclass (c d : exc_class) : bool := bool_decide (d ∈ mro c).

(** An exception instance: its class and [str(e)]. *)
Record exception : Set := mk_exception { exc_type : exc_class; exc_str : string }.

Global Instance exception_eq_dec : EqDecision exception.
Proof. solve_decision. Defined.

Definition isinstance (e : exception) (c : exc_class) : bool :=
  issubclass (exc_type e) c.

(** ** Outcomes of a computation

    A call returns a value, raises, or does not come back ([Diverge]: the
    only unbounded loop of the module is the parent walk of
    [get_run_or_paragraph_for_highlight]). *)
Inductive outcome (A : Type) : Type :=
| Return (a : A)
| Raise (e : exception)
| Diverge.
Arguments Return {A} a.
Arguments Raise {A} e.
Arguments Diverge {A}.

Definition obind {A B} (m : outcome A) (k : A → outcome B) : outcome B :=
  match m with
  | Return a => k a
  | Raise e => Raise e
  | Diverge => Diverge
  end.

Declare Scope out_scope.
Delimit Scope out_scope with out.
Notation "x <- m ;; k" := (obind m (λ x, k))
  (at level 100, m at next level, right associativity) : out_scope.

(** [try: m except cls: handler]. *)
Definition try_except {A} (m : outcome A) (cls : exc_class)
    (handler : outcome A) : outcome A :=
  match m with
  | Raise e => if isinstance e cls then handler else Raise e
  | _ => m
  end.

(** [for x in xs: body] threading an accumulator: the loop stops at the
    first exception. *)
Fixpoint ofold {A B} (body : B → A → outcome B) (xs : list A) (acc : B)
    : outcome B :=
  match xs with
  | [] => Return acc
  | x :: xs' => (acc' <- body acc x ;; ofold body xs' acc')%out
  end.

(** [list(map(f, xs))] and [list(filter(f, xs))] for an [f] that may raise:
    the elements are visited in order. *)
Fixpoint omap_list {A B} (f : A → outcome B) (xs : list A) : outcome (list B) :=
  match xs with
  | [] => Return []
  | x :: xs' => (y <- f x ;; ys <- omap_list f xs' ;; Return (y :: ys))%out
  end.

Fixpoint ofilter {A} (f : A → outcome bool) (xs : list A) : outcome (list A) :=
  match xs with
  | [] => Return []
  | x :: xs' =>
      (b <- f x ;; ys <- ofilter f xs' ;;
       Return (if b then x :: ys else ys))%out
  end.

(** ** [str] *)

Definition colon : ascii := ":"%char.
Definition lbrace : ascii := "{"%char.
Definition rbrace : ascii := "}"%char.
Definition dquote : ascii := ascii_of_nat 34.
Definition squote : ascii := "'"%char.
Definition backslash : ascii := "\"%char.

Definition chr (c : ascii) : string := String c EmptyString.

(** [sep in s]. *)
Fixpoint contains (sep : ascii) (s : string) : bool :=
  match s with
  | EmptyString => false
  | String c s' => Ascii.eqb c sep || contains sep s'
  end.

(** [s.split(sep, 1)] for a one-character separator: one or two pieces. *)
Fixpoint split_once (sep : ascii) (s : string) : list string :=
  match s with
  | EmptyString => [EmptyString]
  | String c s' =>
      if Ascii.eqb c sep then [EmptyString; s']
      else match split_once sep s' with
           | a :: rest => String c a :: rest
           | [] => [String c EmptyString]
           end
  end.

(** [s.rsplit(sep, 1)] for a one-character separator. *)
Fixpoint rsplit_once (sep : ascii) (s : string) : list string :=
  match s with
  | EmptyString => [EmptyString]
  | String c s' =>
      match rsplit_once sep s' with
      | [a; b] => [String c a; b]
      | _ => if Ascii.eqb c sep then [EmptyString; s'] else [String c s']
      end
  end.

(** [a, b = pieces]. *)
Definition unpack2 (pieces : list string) : outcome (string * string) :=
  match pieces with
  | [a; b] => Return (a, b)
  | [] => Raise (mk_exception ValueError
                   "not enough values to unpack (expected 2, got 0)")
  | [_] => Raise (mk_exception ValueError
                    "not enough values to unpack (expected 2, got 1)")
  | _ => Raise (mk_exception ValueError "too many values to unpack (expected 2)")
  end.

(** [s.replace(old, new)] for a one-character [old]. *)
Fixpoint replace (old : ascii) (new : string) (s : string) : string :=
  match s with
  | EmptyString => EmptyString
  | String c s' =>
      if Ascii.eqb c old then new +:+ replace old new s'
      else String c (replace old new s')
  end.

Definition hex_digit (n : nat) : ascii :=
  match n with
  | 0 => "0" | 1 => "1" | 2 => "2" | 3 => "3" | 4 => "4" | 5 => "5"
  | 6 => "6" | 7 => "7" | 8 => "8" | 9 => "9" | 10 => "a" | 11 => "b"
  | 12 => "c" | 13 => "d" | 14 => "e" | _ => "f"
  end%char.

(** [str.isprintable] on one code point below 256: the controls, the
    no-break space and the soft hyphen are not printable. *)
Definition isprintable (c : ascii) : bool :=
  let n := nat_of_ascii c in
  (Nat.leb 32 n && Nat.ltb n 127) || (Nat.leb 161 n && negb (Nat.eqb n 173)).

Definition repr_char (quote : ascii) (c : ascii) : string :=
  let n := nat_of_ascii c in
  if Ascii.eqb c quote || Ascii.eqb c backslash then String backslash (chr c)
  else if Nat.eqb n 9 then "\t"
  else if Nat.eqb n 10 then "\n"
  else if Nat.eqb n 13 then "\r"
  else if isprintable c then chr c
  else String backslash
         (String "x" (String (hex_digit (n / 16)) (chr (hex_digit (n mod 16))))).

Fixpoint repr_body (quote : ascii) (s : string) : string :=
  match s with
  | EmptyString => EmptyString
  | String c s' => repr_char quote c +:+ repr_body quote s'
  end.

(** [repr(s)], which is what [%r] formats: single quotes unless the string
    has a single quote and no double quote. *)
Definition repr (s : string) : string :=
  let quote := if contains squote s && negb (contains dquote s)
               then dquote else squote in
  String quote (repr_body quote s +:+ chr quote).

(** ** [dict]

    A dictionary whose iteration order matters is an association list in
    insertion order with unique keys. *)
Definition dict := list (string * string).

Fixpoint dict_get (d : dict) (k : string) : option string :=
  match d with
  | [] => None
  | (k', v) :: d' => if String.eqb k' k then Some v else dict_get d' k
  end.

(** [d[k]]. *)
Definition dict_getitem (d : dict) (k : string) : outcome string :=
  match dict_get d k with
  | Some v => Return v
  | None => Raise (mk_exception KeyError (repr k))
  end.

(** [d[k] = v]: an existing key keeps its position. *)
Fixpoint dict_set (d : dict) (k v : string) : dict :=
  match d with
  | [] => [(k, v)]
  | (k', v') :: d' =>
      if String.eqb k' k then (k', v) :: d' else (k', v') :: dict_set d' k v
  end.

(** [del d[k]]. *)
Definition dict_del (d : dict) (k : string) : dict :=
  filter (λ kv, negb (String.eqb kv.1 k)) d.

(* ================================================================== *)
(** * [DocxRedactor]: the namespace table and [expand] *)
(* ================================================================== *)

(** [self.namespaces]: assigned once in [__init__] and never written
    again. *)
Definition namespaces : dict :=
  [ ("m", "http://schemas.openxmlformats.org/officeDocument/2006/math");
    ("mc", "http://schemas.openxmlformats.org/markup-compatibility/2006");
    ("o", "urn:schemas-microsoft-com:office:office");
    ("r", "http://schemas.openxmlformats.org/officeDocument/2006/relationships");
    ("v", "urn:schemas-microsoft-com:vml");
    ("w", "http://schemas.openxmlformats.org/wordprocessingml/2006/main");
    ("w10", "urn:schemas-microsoft-com:office:word");
    ("w14", "http://schemas.microsoft.com/office/word/2010/wordml");
    ("wne", "http://schemas.microsoft.com/office/word/2006/wordml");
    ("wp", "http://schemas.openxmlformats.org/drawingml/2006/wordprocessingDrawing");
    ("wp14", "http://schemas.microsoft.com/office/word/2010/wordprocessingDrawing");
    ("wpc", "http://schemas.microsoft.com/office/word/2010/wordprocessingCanvas");
    ("wpg", "http://schemas.microsoft.com/office/word/2010/wordprocessingGroup");
    ("wpi", "http://schemas.microsoft.com/office/word/2010/wordprocessingInk");
    ("wps", "http://schemas.microsoft.com/office/word/2010/wordprocessingShape") ].

(** ["{%s}%s" % (uri, local)]. *)
Definition qualified (uri local : string) : string :=
  String lbrace (uri +:+ String rbrace local).

(** [DocxRedactor.expand].  The first unpacking stands outside the [try]. *)
Definition expand (tag : string) : outcome string :=
  (pieces <- unpack2 (split_once colon tag) ;;
   let '(prefix, uri) := pieces in
   try_except
     (pieces <- unpack2 (split_once colon tag) ;;
      let '(prefix, uri) := pieces in
      ns <- dict_getitem namespaces prefix ;;
      Return (qualified ns uri))
     KeyError
     (Raise (mk_exception SyntaxError
               ("prefix " +:+ repr prefix +:+ " not found in prefix map"))))%out.

(* ================================================================== *)
(** * [xml.etree.ElementTree] *)
(* ================================================================== *)

(** ** Elements

    An [Element] object as the parser allocates it.  [oid] is the identity
    of the object ([id(elem)]): [fromstring] numbers the elements of a tree
    in document order.  Tags and attribute names are the strings
    ["{uri}local"] the parser produces; the parser never yields comments or
    processing instructions, so every tag is a [str]. *)
Inductive Element : Type := mkElement {
  oid : nat;
  tag : string;
  attrib : dict;
  text : option string;
  tail : option string;
  children : list Element }.

(** The module changes an element after parsing in two ways only:
    [text_node.text = ...] and [elem.remove(child)].  The heap records both,
    by identity: the text assigned to an element, and the elements that were
    taken out of their parent's child list.  An [Element] value held by the
    program (in [self.root], in [self.parent_map], in a list of highlights)
    is a reference: its mutable fields are read through the heap. *)
Record Heap : Type := mkHeap {
  texts : gmap nat string;
  detached : gset nat }.

Definition empty_heap : Heap := {| texts := ∅; detached := ∅ |}.

(** The object behind a reference as it is now: its text and its child
    list after the recorded changes, recursively. *)
Fixpoint current (h : Heap) (e : Element) : Element :=
  {| oid := oid e;
     tag := tag e;
     attrib := attrib e;
     text := match texts h !! oid e with
             | Some t => Some t
             | None => text e
             end;
     tail := tail e;
     children :=
       flat_map (λ c, if decide (oid c ∈ detached h) then []
                      else [current h c])
                (children e) |}.

(** [Element.iter]: the element itself when its tag is wanted, then the
    children's iterations, in document order.  [None] stands for no tag
    filter. *)
Fixpoint iter (wanted : option string) (e : Element) : list Element :=
  (match wanted with
   | None => [e]
   | Some t => if String.eqb (tag e) t then [e] else []
   end) ++ flat_map (iter wanted) (children e).

(** [Element.iter(tag)]: ["*"] means every tag. *)
Definition Element_iter (e : Element) (t : option string) : list Element :=
  iter (match t with
        | Some s => if String.eqb s "*" then None else Some s
        | None => None
        end) e.

(** [Element.remove(sub)] is [self._children.remove(sub)]: the first child
    that is [sub]; [ValueError] when [sub] is no child. *)
Definition Element_remove (h : Heap) (e sub : Element) : outcome Heap :=
  if bool_decide (oid sub ∈ map oid (children (current h e)))
  then Return {| texts := texts h; detached := {[oid sub]} ∪ detached h |}
  else Raise (mk_exception ValueError "list.remove(x): x not in list").

(** [e.text = t]. *)
Definition Element_set_text (h : Heap) (e : Element) (t : string) : Heap :=
  {| texts := <[oid e := t]> (texts h); detached := detached h |}.

(** [Element.items()] is [attrib.items()]; [e.attrib[k]] raises [KeyError]. *)

(** The identities [fromstring] gives to the elements of a parsed tree:
    consecutive numbers from [n] in document order.  The result is the
    relabelled tree and the next free number. *)
Fixpoint allocate (n : nat) (e : Element) : Element * nat :=
  let step := fix step (cs : list Element) (n : nat) : list Element * nat :=
    match cs with
    | [] => ([], n)
    | c :: cs' =>
        let '(c', n') := allocate n c in
        let '(cs'', n'') := step cs' n' in
        (c' :: cs'', n'')
    end in
  let '(cs, n') := step (children e) (S n) in
  ({| oid := n; tag := tag e; attrib := attrib e; text := text e;
      tail := tail e; children := cs |}, n').

(** ** The namespace registry *)

(** [_namespace_map] as the module defines it. *)
Definition default_namespace_map : dict :=
  [ ("http://www.w3.org/XML/1998/namespace", "xml");
    ("http://www.w3.org/1999/xhtml", "html");
    ("http://www.w3.org/1999/02/22-rdf-syntax-ns#", "rdf");
    ("http://schemas.xmlsoap.org/wsdl/", "wsdl");
    ("http://www.w3.org/2001/XMLSchema", "xs");
    ("http://www.w3.org/2001/XMLSchema-instance", "xsi");
    ("http://purl.org/dc/elements/1.1/", "dc") ].

Definition is_digit (c : ascii) : bool :=
  let n := nat_of_ascii c in Nat.leb 48 n && Nat.leb n 57.

(** The rest of a match of [\d*$]: digits up to the end of the string, or up
    to a newline that ends it. *)
Fixpoint digits_to_end (s : string) : bool :=
  match s with
  | EmptyString => true
  | String c s' =>
      if is_digit c then digits_to_end s'
      else Nat.eqb (nat_of_ascii c) 10 && bool_decide (s' = EmptyString)
  end.

(** [re.match(r"ns\d+$", prefix)]: the prefixes the serializer generates
    itself. *)
Definition reserved_prefix (prefix : string) : bool :=
  match prefix with
  | String "n" (String "s" (String d rest)) => is_digit d && digits_to_end rest
  | _ => false
  end.

(** [register_namespace(prefix, uri)] on the registry. *)
Definition register_namespace (registry : dict) (prefix uri : string)
    : outcome dict :=
  if reserved_prefix prefix
  then Raise (mk_exception ValueError "Prefix format reserved for internal use")
  else
    let registry' :=
      foldl (λ reg kv, if String.eqb kv.1 uri || String.eqb kv.2 prefix
                       then dict_del reg kv.1 else reg)
            registry registry in
    Return (dict_set registry' uri prefix).

(** ** [_namespaces] *)

(** [prefix + ":" + tag], or [tag] alone under the default namespace. *)
Definition encoded_qname (prefix local : string) : string :=
  if bool_decide (prefix = EmptyString) then local
  else prefix +:+ String colon local.

(** [add_qname] of [_namespaces], called without [default_namespace]: the
    test [qname[:1] == "{"], then [qname[1:].rsplit("}", 1)].  The state is
    the pair of [qnames] and [namespaces]. *)
Definition add_qname (registry : dict) (qname : string)
    (st : gmap string string * dict) : outcome (gmap string string * dict) :=
  let '(qnames, nss) := st in
  match qname with
  | String c rest =>
      if Ascii.eqb c lbrace then
        (pieces <- unpack2 (rsplit_once rbrace rest) ;;
         let '(uri, local) := pieces in
         match dict_get nss uri with
         | Some prefix =>
             Return (<[qname := encoded_qname prefix local]> qnames, nss)
         | None =>
             let prefix := match dict_get registry uri with
                           | Some p => p
                           | None => "ns" +:+ pretty (List.length nss)
                           end in
             let nss' := if bool_decide (prefix = "xml") then nss
                         else dict_set nss uri prefix in
             Return (<[qname := encoded_qname prefix local]> qnames, nss')
         end)%out
      else Return (<[qname := qname]> qnames, nss)
  | EmptyString => Return (<[qname := qname]> qnames, nss)
  end.

(** [if name not in qnames: add_qname(name)]. *)
Definition note_qname (registry : dict) (st : gmap string string * dict)
    (name : string) : outcome (gmap string string * dict) :=
  match st.1 !! name with
  | Some _ => Return st
  | None => add_qname registry name st
  end.

(** The body of the loop of [_namespaces] for one element: its tag, then its
    attribute names in order.  (Values and texts are [str], never [QName].) *)
Definition note_element (registry : dict) (st : gmap string string * dict)
    (e : Element) : outcome (gmap string string * dict) :=
  (st' <- note_qname registry st (tag e) ;;
   ofold (note_qname registry) (map fst (attrib e)) st')%out.

(** [_namespaces(elem)] as the library defines it; it reads the registry
    when it is called. *)
Definition _namespaces (registry : dict) (elem : Element)
    : outcome (gmap string string * dict) :=
  ofold (note_element registry) (Element_iter elem None) (∅, []).

(** ** [_serialize_xml] *)

Definition _escape_cdata (text : string) : string :=
  let text := if contains "&" text then replace "&" "&amp;" text else text in
  let text := if contains "<" text then replace "<" "&lt;" text else text in
  let text := if contains ">" text then replace ">" "&gt;" text else text in
  text.

(** [text.replace("\r\n", "\n")]. *)
Fixpoint replace_crlf (s : string) : string :=
  match s with
  | EmptyString => EmptyString
  | String c s' =>
      match s' with
      | String d s'' =>
          if Nat.eqb (nat_of_ascii c) 13 && Nat.eqb (nat_of_ascii d) 10
          then String d (replace_crlf s'')
          else String c (replace_crlf s')
      | EmptyString => String c EmptyString
      end
  end.

(** [_escape_attrib] of Python 3.8, the last release in which
    [Element.getiterator] exists: line ends are normalised to a line feed
    before the line feed is written as a character reference. *)
Definition _escape_attrib (text : string) : string :=
  let cr := ascii_of_nat 13 in
  let lf := ascii_of_nat 10 in
  let text := if contains "&" text then replace "&" "&amp;" text else text in
  let text := if contains "<" text then replace "<" "&lt;" text else text in
  let text := if contains ">" text then replace ">" "&gt;" text else text in
  let text := if contains dquote text then replace dquote "&quot;" text
              else text in
  let text := replace_crlf text in
  let text := if contains cr text then replace cr (chr lf) text else text in
  let text := if contains lf text then replace lf "&#10;" text else text in
  let text := if contains (ascii_of_nat 9) text
              then replace (ascii_of_nat 9) "&#09;" text else text in
  text.

(** [sorted(namespaces.items(), key=lambda x: x[1])]: a stable sort on the
    prefix. *)
Fixpoint insert_by_prefix (kv : string * string) (l : dict) : dict :=
  match l with
  | [] => [kv]
  | kv' :: l' =>
      if String.ltb kv.2 kv'.2 then kv :: l
      else kv' :: insert_by_prefix kv l'
  end.

Definition sorted_by_prefix (d : dict) : dict :=
  foldl (λ acc kv, insert_by_prefix kv acc) [] d.

(** [qnames[name]]. *)
Definition qnames_getitem (qnames : gmap string string) (name : string)
    : outcome string :=
  match qnames !! name with
  | Some q => Return q
  | None => Raise (mk_exception KeyError (repr name))
  end.

Definition truthy (s : option string) : bool :=
  match s with
  | Some (String _ _) => true
  | _ => false
  end.

Definition str_concat (l : list string) : string :=
  foldr String.append EmptyString l.

Section serialize.
Variable qnames : gmap string string.

(** The text of the [xmlns] declarations written on the root. *)
Definition xmlns_declarations (nss : dict) : string :=
  str_concat
    (map (λ vk, " xmlns" +:+
                (if bool_decide (vk.2 = EmptyString) then EmptyString
                 else String colon vk.2) +:+
                String "=" (String dquote (_escape_attrib vk.1 +:+ chr dquote)))
         (sorted_by_prefix nss)).

Definition serialize_items (items : dict) : outcome string :=
  ofold (λ acc kv,
           (k <- qnames_getitem qnames kv.1 ;;
            Return (acc +:+ " " +:+ k +:+
                    String "=" (String dquote
                                  (_escape_attrib kv.2 +:+ chr dquote))))%out)
        items EmptyString.

(** [_serialize_xml(write, elem, qnames, namespaces,
    short_empty_elements=True)]: the text written.  The children are
    serialized with [namespaces=None], here the empty dictionary. *)
Fixpoint _serialize_xml (elem : Element) (nss : dict) : outcome string :=
  let serialize_children :=
    fix go (cs : list Element) : outcome string :=
      match cs with
      | [] => Return EmptyString
      | c :: cs' =>
          (s <- _serialize_xml c [] ;; rest <- go cs' ;; Return (s +:+ rest))%out
      end in
  (qtag <- qnames_getitem qnames (tag elem) ;;
   items <- serialize_items (attrib elem) ;;
   inner <- serialize_children (children elem) ;;
   let head := "<" +:+ qtag +:+ xmlns_declarations nss +:+ items in
   let body :=
     if truthy (text elem) || negb (Nat.eqb (List.length (children elem)) 0)
     then ">" +:+ _escape_cdata (default EmptyString (text elem)) +:+ inner
          +:+ "</" +:+ qtag +:+ ">"
     else " />" in
   let after := if truthy (tail elem)
                then _escape_cdata (default EmptyString (tail elem))
                else EmptyString in
   Return (head +:+ body +:+ after))%out.

End serialize.

(** The stream of [tostring] encodes to US-ASCII with
    [errors="xmlcharrefreplace"]. *)
Fixpoint encode_ascii (s : string) : string :=
  match s with
  | EmptyString => EmptyString
  | String c s' =>
      let n := nat_of_ascii c in
      (if Nat.ltb n 128 then chr c else "&#" +:+ pretty n +:+ ";")
      +:+ encode_ascii s'
  end.

(* ================================================================== *)
(** * [zipfile] *)
(* ================================================================== *)

(** A [ZipInfo] as [ZipFile] reads it from the central directory of an
    archive: the name, the date and time (in the range and the two-second
    resolution of the format), the compression method, the general purpose
    flag bits, the comment and the extra field of the member, and its
    external attributes.  The sizes, the checksum, the header offset and
    the version numbers are not modelled. *)
Record ZipInfo : Type := mkZipInfo {
  filename : string;
  date_time : nat * nat * nat * nat * nat * nat;
  compress_type : nat;
  flag_bits : N;
  zi_comment : string;
  extra : string;
  external_attr : N }.

Global Instance ZipInfo_eq_dec : EqDecision ZipInfo.
Proof. solve_decision. Defined.

(** An archive: its members in directory order, each with its payload, and
    the archive comment.  The payload of a member is what [read] returns;
    members that [zipfile] cannot read (encrypted, or compressed by a method
    it does not support) are outside the model. *)
Record ZipFile : Type := mkZipFile {
  filelist : list (ZipInfo * string);
  comment : string }.

Definition infolist (z : ZipFile) : list ZipInfo := map fst (filelist z).

(** [NameToInfo[name]]: the central directory is read in order and a later
    member of the same name replaces an earlier one. *)
Definition name_to_info (z : ZipFile) (name : string)
    : option (ZipInfo * string) :=
  last (filter (λ m, String.eqb (filename m.1) name) (filelist z)).

(** [ZipFile.getinfo(name)] and [ZipFile.read(name)]. *)
Definition getinfo (z : ZipFile) (name : string) : outcome ZipInfo :=
  match name_to_info z name with
  | Some m => Return m.1
  | None => Raise (mk_exception KeyError
               (repr ("There is no item named " +:+ repr name +:+
                      " in the archive")))
  end.

Definition read (z : ZipFile) (name : string) : outcome string :=
  match name_to_info z name with
  | Some m => Return m.2
  | None => Raise (mk_exception KeyError
               (repr ("There is no item named " +:+ repr name +:+
                      " in the archive")))
  end.

(** ** Writing a member *)

Definition ZIP_LZMA : nat := 14.

(** What [_open_to_write] assigns to the [ZipInfo] it is given, before the
    member is written: the flag bits are reset ([0x02] for LZMA; the bit
    for a data descriptor is not set, a file on disk being seekable), and
    external attributes of zero become [0o600 << 16].  The object is changed
    in place: whoever holds it sees the change. *)
Definition _open_to_write (zinfo : ZipInfo) : ZipInfo :=
  {| filename := filename zinfo;
     date_time := date_time zinfo;
     compress_type := compress_type zinfo;
     flag_bits := if Nat.eqb (compress_type zinfo) ZIP_LZMA then 2%N else 0%N;
     zi_comment := zi_comment zinfo;
     extra := extra zinfo;
     external_attr := if N.eqb (external_attr zinfo) 0 then N.shiftl 384 16
                      else external_attr zinfo |}.

(** [ZipFile.writestr(zinfo, data)]: the member is appended under the
    [ZipInfo] as [_open_to_write] leaves it. *)
Definition writestr (z : ZipFile) (zinfo : ZipInfo) (data : string) : ZipFile :=
  {| filelist := filelist z ++ [(_open_to_write zinfo, data)];
     comment := comment z |}.

(** [str.isascii]. *)
Fixpoint isascii (s : string) : bool :=
  match s with
  | EmptyString => true
  | String c s' => Nat.ltb (nat_of_ascii c) 128 && isascii s'
  end.

(** [_encodeFilenameFlags]: the flag bits that go into the central
    directory; a name that is not ASCII is written in UTF-8 and flagged
    [0x800]. *)
Definition _encodeFilenameFlags (zinfo : ZipInfo) : N :=
  if isascii (filename zinfo) then flag_bits zinfo
  else N.lor (flag_bits zinfo) 2048.

(** The record of a member in the central directory that
    [_write_end_record] writes, as a later reader of the archive finds
    it. *)
Definition central_directory_record (zinfo : ZipInfo) : ZipInfo :=
  {| filename := filename zinfo;
     date_time := date_time zinfo;
     compress_type := compress_type zinfo;
     flag_bits := _encodeFilenameFlags zinfo;
     zi_comment := zi_comment zinfo;
     extra := extra zinfo;
     external_attr := external_attr zinfo |}.

Definition _write_end_record (z : ZipFile) : ZipFile :=
  {| filelist := map (λ m, (central_directory_record m.1, m.2)) (filelist z);
     comment := comment z |}.

(* ================================================================== *)
(** * The process state *)
(* ================================================================== *)

Inductive file : Type :=
| ZipArchive (z : ZipFile)
| OtherFile (content : string).

(** The type of [ET._namespaces]: a function of the element that reads the
    registry of the module at the time of the call. *)
Definition namespaces_method : Type :=
  dict → Element → outcome (gmap string string * dict).

(** Everything the module reads and writes: the attributes of the one
    [DocxRedactor] instance, the element objects, the globals of
    [xml.etree.ElementTree], the files and the standard output.
    [XMLParser] is the expat parser behind [ET.fromstring]; it is not
    modelled, and the tree it returns carries no identities yet. *)
Record World : Type := mkWorld {
  is_open : bool;
  path : option string;
  doc_info : option ZipInfo;
  root : option Element;
  parent_map : option (gmap nat Element);
  heap : Heap;
  ET_namespace_map : dict;
  ET_namespaces : namespaces_method;
  XMLParser : string → outcome Element;
  files : gmap string file;
  stdout : list string }.

Definition set_is_open (b : bool) (w : World) : World :=
  mkWorld b (path w) (doc_info w) (root w) (parent_map w) (heap w)
    (ET_namespace_map w) (ET_namespaces w) (XMLParser w) (files w) (stdout w).
Definition set_path (p : option string) (w : World) : World :=
  mkWorld (is_open w) p (doc_info w) (root w) (parent_map w) (heap w)
    (ET_namespace_map w) (ET_namespaces w) (XMLParser w) (files w) (stdout w).
Definition set_doc_info (i : option ZipInfo) (w : World) : World :=
  mkWorld (is_open w) (path w) i (root w) (parent_map w) (heap w)
    (ET_namespace_map w) (ET_namespaces w) (XMLParser w) (files w) (stdout w).
Definition set_root (r : option Element) (w : World) : World :=
  mkWorld (is_open w) (path w) (doc_info w) r (parent_map w) (heap w)
    (ET_namespace_map w) (ET_namespaces w) (XMLParser w) (files w) (stdout w).
Definition set_parent_map (m : option (gmap nat Element)) (w : World) : World :=
  mkWorld (is_open w) (path w) (doc_info w) (root w) m (heap w)
    (ET_namespace_map w) (ET_namespaces w) (XMLParser w) (files w) (stdout w).
Definition set_heap (h : Heap) (w : World) : World :=
  mkWorld (is_open w) (path w) (doc_info w) (root w) (parent_map w) h
    (ET_namespace_map w) (ET_namespaces w) (XMLParser w) (files w) (stdout w).
Definition set_ET_namespace_map (d : dict) (w : World) : World :=
  mkWorld (is_open w) (path w) (doc_info w) (root w) (parent_map w) (heap w)
    d (ET_namespaces w) (XMLParser w) (files w) (stdout w).
Definition set_ET_namespaces (f : namespaces_method) (w : World) : World :=
  mkWorld (is_open w) (path w) (doc_info w) (root w) (parent_map w) (heap w)
    (ET_namespace_map w) f (XMLParser w) (files w) (stdout w).
Definition set_files (fs : gmap string file) (w : World) : World :=
  mkWorld (is_open w) (path w) (doc_info w) (root w) (parent_map w) (heap w)
    (ET_namespace_map w) (ET_namespaces w) (XMLParser w) fs (stdout w).
Definition set_stdout (out : list string) (w : World) : World :=
  mkWorld (is_open w) (path w) (doc_info w) (root w) (parent_map w) (heap w)
    (ET_namespace_map w) (ET_namespaces w) (XMLParser w) (files w) out.

(** ** The monad of Python code: state and exceptions

    An exception leaves the state as it is at the [raise]: nothing is
    rolled back. *)
Definition Py (A : Type) : Type := World → outcome A * World.

Definition ret {A} (a : A) : Py A := λ w, (Return a, w).
Definition raise {A} (e : exception) : Py A := λ w, (Raise e, w).
Definition lift {A} (o : outcome A) : Py A := λ w, (o, w).
Definition bind {A B} (m : Py A) (k : A → Py B) : Py B :=
  λ w, match m w with
       | (Return a, w') => k a w'
       | (Raise e, w') => (Raise e, w')
       | (Diverge, w') => (Diverge, w')
       end.
Definition gets {A} (f : World → A) : Py A := λ w, (Return (f w), w).
Definition modify (f : World → World) : Py unit := λ w, (Return tt, f w).

Declare Scope py_scope.
Delimit Scope py_scope with py.
Notation "x <- m ;; k" := (bind m (λ x, k))
  (at level 100, m at next level, right associativity) : py_scope.
Notation "m ;;; k" := (bind m (λ _, k))
  (at level 100, right associativity) : py_scope.

(** [for x in xs: body]. *)
Fixpoint for_each {A} (xs : list A) (body : A → Py unit) : Py unit :=
  match xs with
  | [] => ret tt
  | x :: xs' => (body x ;;; for_each xs' body)%py
  end.

(** [print(line)]. *)
Definition print (line : string) : Py unit :=
  modify (λ w, set_stdout (stdout w ++ [line]) w).

(** Reading an object through a reference. *)
Definition deref (e : Element) : Py Element :=
  gets (λ w, current (heap w) e).

(** ** Files *)

Definition os_path_isfile (p : string) : Py bool :=
  gets (λ w, bool_decide (is_Some (files w !! p))).

(** [s.rstrip("/")]. *)
Fixpoint rstrip_slash (s : string) : string :=
  match s with
  | EmptyString => EmptyString
  | String c s' =>
      match rstrip_slash s' with
      | EmptyString => if Ascii.eqb c "/" then EmptyString else chr c
      | rest => String c rest
      end
  end.

(** [os.path.dirname]: the path up to its last slash, without trailing
    slashes unless it holds nothing else. *)
Definition os_path_dirname (p : string) : string :=
  match rsplit_once "/" p with
  | [d; _] =>
      match rstrip_slash d with
      | EmptyString => d +:+ "/"
      | head => head
      end
  | _ => EmptyString
  end.

(** [os.path.join(a, b)] for a relative [b]. *)
Definition os_path_join (a b : string) : string :=
  match a with
  | EmptyString => b
  | _ => match rsplit_once "/" a with
         | [_; EmptyString] => a +:+ b
         | _ => a +:+ String "/" b
         end
  end.

(** [tempfile.mkstemp(dir=dir)] followed by [os.close]: a new, empty file
    in [dir] whose name starts with [tmp] and is not in use. *)
Definition mkstemp (dir : string) : Py string :=
  (fs <- gets files ;;
   let name := fresh_string (os_path_join dir "tmp") fs in
   modify (set_files (<[name := OtherFile EmptyString]> fs)) ;;;
   ret name)%py.

(** [ZipFile(name, 'r')]: the archive as it stands in the file. *)
Definition ZipFile_read (name : string) : Py ZipFile :=
  (fs <- gets files ;;
   match fs !! name with
   | Some (ZipArchive z) => ret z
   | Some (OtherFile _) =>
       raise (mk_exception BadZipFile "File is not a zip file")
   | None =>
       raise (mk_exception FileNotFoundError
                ("[Errno 2] No such file or directory: " +:+ repr name))
   end)%py.

(** Closing a [ZipFile] that was written to stores the archive: the
    members, then the central directory and the comment. *)
Definition ZipFile_close (name : string) (z : ZipFile) : Py unit :=
  modify (λ w, set_files (<[name := ZipArchive (_write_end_record z)]>
                            (files w)) w).

Definition os_remove (name : string) : Py unit :=
  (fs <- gets files ;;
   match fs !! name with
   | Some _ => modify (set_files (delete name fs))
   | None =>
       raise (mk_exception FileNotFoundError
                ("[Errno 2] No such file or directory: " +:+ repr name))
   end)%py.

Definition os_rename (src dst : string) : Py unit :=
  (fs <- gets files ;;
   match fs !! src with
   | Some f => modify (set_files (<[dst := f]> (delete src fs)))
   | None =>
       raise (mk_exception FileNotFoundError
                ("[Errno 2] No such file or directory: " +:+ repr src))
   end)%py.

(* ================================================================== *)
(** * [search_replace.py] *)
(* ================================================================== *)

(** ** [replace_namespaces_method] *)

(** The loop [for key, val in hardcoded_namespaces.items():
    flipped[val] = key]. *)
Definition flipped_namespaces (hardcoded_namespaces : dict) : dict :=
  foldl (λ flipped kv, dict_set flipped kv.2 kv.1) [] hardcoded_namespaces.

(** The closure [_namespace_replacement]. *)
Definition _namespace_replacement (hardcoded_namespaces : dict)
    (old_method : namespaces_method) : namespaces_method :=
  λ registry elem,
    (result <- old_method registry elem ;;
     let '(qnames, _) := result in
     Return (qnames, flipped_namespaces hardcoded_namespaces))%out.

Definition replace_namespaces_method (hardcoded_namespaces : dict) : Py unit :=
  (old_method <- gets ET_namespaces ;;
   modify (set_ET_namespaces
             (_namespace_replacement hardcoded_namespaces old_method)))%py.

(** [ET.register_namespace] on the module's registry. *)
Definition ET_register_namespace (prefix uri : string) : Py unit :=
  (registry <- gets ET_namespace_map ;;
   registry' <- lift (register_namespace registry prefix uri) ;;
   modify (set_ET_namespace_map registry'))%py.

(** [ET.tostring(element)]: the method defaults to ["xml"], the encoding to
    US-ASCII, so no XML declaration is written.  [_namespaces] is looked up
    in the module when [write] runs. *)
Definition ET_tostring (element : Element) : Py string :=
  (elem <- deref element ;;
   method <- gets ET_namespaces ;;
   registry <- gets ET_namespace_map ;;
   result <- lift (method registry elem) ;;
   let '(qnames, nss) := result in
   s <- lift (_serialize_xml qnames elem nss) ;;
   ret (encode_ascii s))%py.

(** [ET.fromstring(data)]: the parsed tree with fresh identities.  The
    elements are new objects, none of them changed yet; the elements of an
    earlier tree are no longer reachable from the instance. *)
Definition ET_fromstring (data : string) : Py Element :=
  (parser <- gets XMLParser ;;
   tree <- lift (parser data) ;;
   modify (set_heap empty_heap) ;;;
   ret (allocate 0 tree).1)%py.

(** ** [update_zip]

    The function returns nothing, but [writestr] changes the [ZipInfo] it
    is given; the model returns [zip_info] as the call leaves it, for the
    caller that keeps the object. *)

Definition update_zip (zipname : string) (zip_info : ZipInfo) (data : string)
    : Py ZipInfo :=
  (tmp_name <- mkstemp (os_path_dirname zipname) ;;
   z_in <- ZipFile_read zipname ;;
   let z_out := {| filelist := []; comment := comment z_in |} in
   z_out <- lift
     (ofold (λ z_out item,
               if bool_decide (filename item ≠ filename zip_info)
               then (payload <- read z_in (filename item) ;;
                     Return (writestr z_out item payload))%out
               else Return z_out)
            (infolist z_in) z_out) ;;
   ZipFile_close tmp_name z_out ;;;
   os_remove zipname ;;;
   os_rename tmp_name zipname ;;;
   zf <- ZipFile_read zipname ;;
   ZipFile_close zipname (writestr zf zip_info data) ;;;
   ret (_open_to_write zip_info))%py.

(** ** [DocxRedactor] *)

Definition __init__ : Py unit :=
  (modify (set_is_open false) ;;;
   modify (set_path None) ;;;
   modify (set_doc_info None) ;;;
   modify (set_root None) ;;;
   modify (set_parent_map None) ;;;
   replace_namespaces_method namespaces ;;;
   for_each namespaces (λ kv, ET_register_namespace kv.1 kv.2))%py.

(** [dict((c, p) for p in root.getiterator() for c in p)].
    ([getiterator] is [iter] without a tag; it exists up to Python 3.8.) *)
Definition build_parent_map (root : Element) : gmap nat Element :=
  foldl (λ m cp, <[oid cp.1 := cp.2]> m) ∅
        (flat_map (λ p, map (λ c, (c, p)) (children p)) (Element_iter root None)).

Definition open (file_path : string) : Py unit :=
  (isfile <- os_path_isfile file_path ;;
   (if isfile then ret tt
    else raise (mk_exception Exception "File '%s' does not exist")) ;;;
   modify (set_path (Some file_path)) ;;;
   zip_file <- ZipFile_read file_path ;;
   info <- lift (getinfo zip_file "word/document.xml") ;;
   modify (set_doc_info (Some info)) ;;;
   document <- lift (read zip_file (filename info)) ;;
   tree <- ET_fromstring document ;;
   modify (set_root (Some tree)) ;;;
   tree <- deref tree ;;
   modify (set_parent_map (Some (build_parent_map tree))) ;;;
   modify (set_is_open true))%py.

Definition check_open : Py unit :=
  (is_open <- gets is_open ;;
   if is_open then ret tt
   else raise (mk_exception Exception "You have to open a file first"))%py.

(** [self.root] as the receiver of a method call. *)
Definition self_root : Py Element :=
  (root <- gets root ;;
   match root with
   | Some r => deref r
   | None => raise (mk_exception AttributeError
                      "'NoneType' object has no attribute 'iter'")
   end)%py.

Definition get_highlights (color : option string) : Py (list Element) :=
  (attribute <- lift (expand "w:val") ;;
   root <- self_root ;;
   highlight <- lift (expand "w:highlight") ;;
   let highlights := Element_iter root (Some highlight) in
   match color with
   | None => ret highlights
   | Some color =>
       lift (ofilter (λ h, (v <- dict_getitem (attrib h) attribute ;;
                            Return (String.eqb v color))%out)
                     highlights)
   end)%py.

(** [sorted(frozenset(...))]: the members of the set in ascending order of
    their code points. *)
Definition sorted_frozenset (l : list string) : list string :=
  merge_sort String.le (elements (list_to_set l : gset string)).

Definition get_all_colors : Py (list string) :=
  (check_open ;;;
   highlights <- get_highlights None ;;
   colors <- lift (omap_list (λ h, (key <- expand "w:val" ;;
                                    dict_getitem (attrib h) key)%out)
                             highlights) ;;
   ret (sorted_frozenset colors))%py.

(** The loop of [get_run_or_paragraph_for_highlight], [fuel] iterations
    of it. *)
Fixpoint parent_walk (fuel : nat) (parent_map : gmap nat Element)
    (elem : Element) : outcome (option Element) :=
  match fuel with
  | 0 => Diverge
  | S fuel' =>
      match parent_map !! oid elem with
      | None => Return None
      | Some elem =>
          (w_r <- expand "w:r" ;;
           if String.eqb (tag elem) w_r then Return (Some elem)
           else
             w_p <- expand "w:p" ;;
             if String.eqb (tag elem) w_p then Return (Some elem)
             else parent_walk fuel' parent_map elem)%out
      end
  end.

(** A walk that comes back takes each key of the dictionary at most once,
    so one more iteration than the dictionary has entries is enough fuel. *)
Definition get_run_or_paragraph_for_highlight (highlight : Element)
    : Py (option Element) :=
  (parent_map <- gets parent_map ;;
   match parent_map with
   | Some pm => lift (parent_walk (S (size pm)) pm highlight)
   | None => raise (mk_exception TypeError
                      "'NoneType' object is not subscriptable")
   end)%py.

(** [elem.remove(sub)] and [node.text = text] on the heap. *)
Definition remove (elem sub : Element) : Py unit :=
  (h <- gets heap ;;
   h' <- lift (Element_remove h elem sub) ;;
   modify (set_heap h'))%py.

Definition assign_text (node : Element) (text : string) : Py unit :=
  modify (λ w, set_heap (Element_set_text (heap w) node text) w).

Definition replace_text_in_run_or_paragraph (elem : Element) (text : string)
    : Py unit :=
  (w_r <- lift (expand "w:r") ;;
   (if String.eqb (tag elem) w_r then
      cur <- deref elem ;;
      w_rPr <- lift (expand "w:rPr") ;;
      let rPrs := Element_iter cur (Some w_rPr) in
      for_each rPrs (λ rPr, remove elem rPr)
    else ret tt) ;;;
   w_p <- lift (expand "w:p") ;;
   (if String.eqb (tag elem) w_p then
      cur <- deref elem ;;
      w_pPr <- lift (expand "w:pPr") ;;
      let pPrs := Element_iter cur (Some w_pPr) in
      for_each pPrs (λ pPr, remove elem pPr)
    else ret tt) ;;;
   cur <- deref elem ;;
   w_t <- lift (expand "w:t") ;;
   for_each (Element_iter cur (Some w_t)) (λ text_node, assign_text text_node text))%py.

(** The body of the loop of [redact]. *)
Definition redact_highlight (replacement : string) (highlight : Element)
    : Py unit :=
  (run <- get_run_or_paragraph_for_highlight highlight ;;
   match run with
   | None => print "Failed to successfully redact a highlight"
   | Some run => replace_text_in_run_or_paragraph run replacement
   end)%py.

Definition redact (color replacement : string) : Py unit :=
  (check_open ;;;
   highlights <- get_highlights (Some color) ;;
   for_each highlights (redact_highlight replacement))%py.

Definition save : Py unit :=
  (check_open ;;;
   root <- gets root ;;
   data <- match root with
           | Some r => ET_tostring r
           | None => raise (mk_exception AttributeError
                              "'NoneType' object has no attribute 'iter'")
           end ;;
   path <- gets path ;;
   doc_info <- gets doc_info ;;
   match path, doc_info with
   | Some path, Some doc_info =>
       doc_info <- update_zip path doc_info data ;;
       modify (set_doc_info (Some doc_info))
   | _, _ => raise (mk_exception TypeError
                      "expected str, bytes or os.PathLike object, not NoneType")
   end)%py.

(* ================================================================== *)
(** * Vocabulary of the specification *)
(* ================================================================== *)

(** The qualified names the module asks [expand] for. *)
Definition W_NS : string :=
  "http://schemas.openxmlformats.org/wordprocessingml/2006/main".
Definition W_HIGHLIGHT : string := qualified W_NS "highlight".
Definition W_VAL : string := qualified W_NS "val".
Definition W_R : string := qualified W_NS "r".
Definition W_P : string := qualified W_NS "p".
Definition W_RPR : string := qualified W_NS "rPr".
Definition W_PPR : string := qualified W_NS "pPr".
Definition W_T : string := qualified W_NS "t".

(** The elements of a tree in document order. *)
Fixpoint nodes (e : Element) : list Element :=
  e :: flat_map nodes (children e).

(** The document tree as it is now. *)
Definition document (w : World) : option Element :=
  current (heap w) <$> root w.

(** The highlight markers of a tree in document order, and the color token
    of a marker. *)
Definition highlight_markers (tree : Element) : list Element :=
  filter (λ e, tag e = W_HIGHLIGHT) (nodes tree).

Definition color_of (h : Element) : option string :=
  dict_get (attrib h) W_VAL.

(** The names an element is serialized with: its tag and its attribute
    names. *)
Definition names (e : Element) : list string := tag e :: map fst (attrib e).

(** The namespace [xml:], which every document has bound. *)
Definition XML_NS : string := "http://www.w3.org/XML/1998/namespace".

(** A name that uses the documented bindings: unqualified, qualified by a
    URI of the table, or in the namespace of [xml:] (as [xml:space] is). *)
Definition documented_name (q : string) : Prop :=
  (∀ rest, q ≠ String lbrace rest)
  ∨ (∃ prefix uri local,
       dict_get namespaces prefix = Some uri
       ∧ q = qualified uri local
       ∧ contains rbrace local = false)
  ∨ (∃ local, q = qualified XML_NS local ∧ contains rbrace local = false).

Definition documented (tree : Element) : Prop :=
  ∀ e q, e ∈ nodes tree → q ∈ names e → documented_name q.

(** ** The document as the table writes it

    These definitions follow the words of the specification, not the
    serializer: they read the table by URI and write the text of an element
    directly. *)

(** The prefix the table binds to a URI. *)
Fixpoint bound_prefix (table : dict) (uri : string) : option string :=
  match table with
  | [] => None
  | (prefix, u) :: table' =>
      if String.eqb u uri then Some prefix else bound_prefix table' uri
  end.

Definition prefix_of (uri : string) : option string :=
  if String.eqb uri XML_NS then Some "xml" else bound_prefix namespaces uri.

(** The name [{uri}local] written [prefix:local] with the prefix of the
    table; another name is written as it is. *)
Definition written_name (q : string) : string :=
  match q with
  | String c rest =>
      if Ascii.eqb c lbrace then
        match rsplit_once rbrace rest with
        | [uri; local] =>
            match prefix_of uri with
            | Some prefix => prefix +:+ String colon local
            | None => q
            end
        | _ => q
        end
      else q
  | EmptyString => q
  end.

(** One declaration for each binding of the table, in the order of the
    table, which is the order of the prefixes. *)
Definition declaration (prefix uri : string) : string :=
  " xmlns:" +:+ prefix +:+ String "=" (String dquote (uri +:+ chr dquote)).

Definition table_declarations : string :=
  foldr (λ kv rest, declaration kv.1 kv.2 +:+ rest) EmptyString namespaces.

Definition written_attribute (kv : string * string) : string :=
  " " +:+ written_name kv.1 +:+
  String "=" (String dquote (_escape_attrib kv.2 +:+ chr dquote)).

(** The text of an element: the start tag with the declarations put on it
    and the attributes, then either the text, the children and the end tag,
    or the short form of an empty element; then the tail. *)
Fixpoint written_element (declarations : string) (e : Element) : string :=
  let name := written_name (tag e) in
  let start :=
    "<" +:+ name +:+ declarations +:+
    foldr (λ kv rest, written_attribute kv +:+ rest) EmptyString (attrib e) in
  let content :=
    match text e, children e with
    | (None | Some EmptyString), [] => " />"
    | _, _ =>
        ">" +:+ _escape_cdata (default EmptyString (text e)) +:+
        foldr (λ c rest, written_element EmptyString c +:+ rest) EmptyString
              (children e)
        +:+ "</" +:+ name +:+ ">"
    end in
  let after :=
    match tail e with
    | Some (String c t) => _escape_cdata (String c t)
    | _ => EmptyString
    end in
  start +:+ content +:+ after.

(** The document as [save] is to write it. *)
Definition written_document (tree : Element) : string :=
  encode_ascii (written_element table_declarations tree).

(** ** The state [DocxRedactor()] installs *)

(** The registry of the module once [__init__] has run on a fresh
    interpreter. *)
Definition registered_namespace_map : dict :=
  default_namespace_map ++ map (λ kv, (kv.2, kv.1)) namespaces.

(** [ET._namespaces] after one or more calls of
    [replace_namespaces_method]: every new instance wraps the method once
    more. *)
Inductive replaced : namespaces_method → Prop :=
| replaced_once :
    replaced (_namespace_replacement namespaces _namespaces)
| replaced_again f :
    replaced f → replaced (_namespace_replacement namespaces f).

(** The registry binds every URI of the table to its prefix and the
    namespace of [xml:] to [xml], and the method has been replaced. *)
Definition installed (w : World) : Prop :=
  (∀ prefix uri, dict_get namespaces prefix = Some uri →
                 dict_get (ET_namespace_map w) uri = Some prefix)
  ∧ dict_get (ET_namespace_map w) XML_NS = Some "xml"
  ∧ replaced (ET_namespaces w).

(** Decidable form of [documented]. *)
Definition documented_nameb (q : string) : bool :=
  match q with
  | String c rest =>
      if Ascii.eqb c lbrace then
        match rsplit_once rbrace rest with
        | [uri; _] => bool_decide (is_Some (prefix_of uri))
        | _ => false
        end
      else true
  | EmptyString => true
  end.

Definition documentedb (tree : Element) : bool :=
  forallb (λ e, forallb documented_nameb (names e)) (nodes tree).

(** A marker of color [c]. *)
Definition has_color (c : string) (h : Element) : Prop := color_of h = Some c.

Global Instance has_color_dec c h : Decision (has_color c h).
Proof. unfold has_color. apply _. Defined.

(** ** Archives *)

(** The invariant of the data model: no two members share a name. *)
Definition unique_names (z : ZipFile) : Prop :=
  NoDup (map filename (infolist z)).

(** The [ZipInfo] of a member once [zipfile] has written it again: name,
    date and time, compression method, comment and extra field are kept;
    the flag bits are the ones [zipfile] sets, and external attributes of
    zero have become [0o600 << 16]. *)
Definition rewritten_info (zinfo : ZipInfo) : ZipInfo :=
  central_directory_record (_open_to_write zinfo).

(** A member that [zipfile] writes back as it is. *)
Definition kept_verbatim (zinfo : ZipInfo) : Prop :=
  rewritten_info zinfo = zinfo.

(** The archive [update_zip] leaves behind: the members of [z] other than
    the target, in their order, then the target with its new payload, each
    under its [ZipInfo] as written again. *)
Definition rewritten (z : ZipFile) (zip_info : ZipInfo) (data : string)
    : ZipFile :=
  {| filelist :=
       map (λ m, (rewritten_info m.1, m.2))
           (filter (λ m, filename m.1 ≠ filename zip_info) (filelist z))
       ++ [(rewritten_info zip_info, data)];
     comment := comment z |}.

(** The state [open] leaves behind when it returns. *)
Definition opened_world (w : World) (p : string) (info : ZipInfo)
    (tree : Element) : World :=
  mkWorld true (Some p) (Some info) (Some (allocate 0 tree).1)
    (Some (build_parent_map (current empty_heap (allocate 0 tree).1)))
    empty_heap (ET_namespace_map w) (ET_namespaces w) (XMLParser w)
    (files w) (stdout w).

(** ** Redaction *)

(** The identities of the elements of a subtree as the parser built it. *)
Definition ids (e : Element) : list nat := map oid (nodes e).

(** The elements of the subtree of [e] that are still reachable from [e]
    when the elements of [d] have been taken out of their parents. *)
Fixpoint live (d : gset nat) (e : Element) : list Element :=
  e :: flat_map (λ c, if decide (oid c ∈ d) then [] else live d c) (children e).

(** The text of an element as it is now. *)
Definition text_of (h : Heap) (e : Element) : option string :=
  match texts h !! oid e with
  | Some t => Some t
  | None => text e
  end.

(** The walk of [get_run_or_paragraph_for_highlight] from [e] up the parent
    links: after [n] links over elements that are neither run nor paragraph
    it ends, either at an element without a parent ([None]) or one link
    below a run or paragraph ([Some p]). *)
Inductive walk (pm : gmap nat Element)
    : nat → Element → option Element → Prop :=
| walk_end e :
    pm !! oid e = None → walk pm 0 e None
| walk_found e p :
    pm !! oid e = Some p → tag p = W_R ∨ tag p = W_P →
    walk pm 0 e (Some p)
| walk_up n e p x :
    pm !! oid e = Some p → tag p ≠ W_R → tag p ≠ W_P →
    walk pm n p x → walk pm (S n) e x.

(** The walk from [e] ends after [n] links at an element without a parent,
    and meets no run and no paragraph on the way. *)
Definition dead_end (pm : gmap nat Element) (n : nat) (e : Element) : Prop :=
  walk pm n e None.

(** The run or paragraph [get_run_or_paragraph_for_highlight] finds. *)
Definition resolve (w : World) (highlight : Element)
    : outcome (option Element) :=
  (get_run_or_paragraph_for_highlight highlight w).1.

(** [h'] differs from [h] by removals and by texts set to [R]. *)
Definition redaction_step (R : string) (h h' : Heap) : Prop :=
  detached h ⊆ detached h'
  ∧ ∀ i, texts h' !! i = texts h !! i ∨ texts h' !! i = Some R.

(** [h'] differs from [h] only on the identities in [S]. *)
Definition confined (S : nat → Prop) (h h' : Heap) : Prop :=
  ∀ i, ¬ S i →
       texts h' !! i = texts h !! i ∧ (i ∈ detached h' ↔ i ∈ detached h).

(** The container [K] is redacted in [h]: no run properties under a run, no
    paragraph properties under a paragraph, and every text element under it
    reads [R]. *)
Definition redacted (R : string) (h : Heap) (K : Element) : Prop :=
  let K' := current h K in
  (tag K = W_R → ∀ n, n ∈ nodes K' → tag n ≠ W_RPR)
  ∧ (tag K = W_P → ∀ n, n ∈ nodes K' → tag n ≠ W_PPR)
  ∧ ∀ n, n ∈ nodes K' → tag n = W_T → text n = Some R.

(** A state that differs from [w] in the heap and the output only. *)
Definition touch (h : Heap) (out : list string) (w : World) : World :=
  set_stdout out (set_heap h w).

Definition skip_message : string := "Failed to successfully redact a highlight".

(** The two loops of [replace_text_in_run_or_paragraph]. *)
Definition strip (elem : Element) (T : string) : Py unit :=
  (cur <- deref elem ;;
   for_each (Element_iter cur (Some T)) (λ sub, remove elem sub))%py.

Definition overwrite (elem : Element) (text : string) : Py unit :=
  (cur <- deref elem ;;
   for_each (Element_iter cur (Some W_T))
     (λ text_node, assign_text text_node text))%py.

(** An outcome that is not a [Return], at another type. *)
Definition propagate {A B} (o : outcome A) : outcome B :=
  match o with
  | Return _ => Diverge
  | Raise e => Raise e
  | Diverge => Diverge
  end.

(** ** Invariants of [_namespaces] on a documented tree *)

(** The prefixes in use are the ones of the table. *)
Definition nss_ok (nss : dict) : Prop :=
  ∀ uri p, dict_get nss uri = Some p → bound_prefix namespaces uri = Some p.

(** Every name noted so far is mapped to the name as the table writes it. *)
Definition qnames_ok (st : gmap string string * dict) : Prop :=
  (∀ q r, st.1 !! q = Some r → r = written_name q) ∧ nss_ok st.2.

(* ================================================================== *)
(** * Sample documents

    Small documents on which the theorems are instantiated.  Each comes as
    the text of [word/document.xml] and as the tree the parser builds from
    that text. *)
(* ================================================================== *)

Definition element (t : string) (a : dict) (tx : option string)
    (cs : list Element) : Element :=
  mkElement 0 t a tx None cs.

Definition highlight (color : string) : Element :=
  element W_HIGHLIGHT [(W_VAL, color)] None [].

Definition run_of (properties : list Element) (t : string) : Element :=
  element W_R [] None
    [element W_RPR [] None properties; element W_T [] (Some t) []].

Definition body_of (content : list Element) : Element :=
  element (qualified W_NS "document") [] None
    [element (qualified W_NS "body") [] None content].

Definition xml_prolog : string :=
  "<?xml version='1.0' encoding='UTF-8' standalone='yes'?>" +:+
  "<w:document xmlns:w='" +:+ W_NS +:+ "'><w:body>".
Definition xml_epilog : string := "</w:body></w:document>".

(** The scenario of the specification: two runs, highlighted yellow and
    green. *)
Definition two_runs : Element :=
  body_of [element W_P [] None
             [run_of [highlight "yellow"] "secret1";
              run_of [highlight "green"] "secret2"]].
Definition two_runs_xml : string :=
  xml_prolog +:+
  "<w:p><w:r><w:rPr><w:highlight w:val='yellow'/></w:rPr>" +:+
  "<w:t>secret1</w:t></w:r>" +:+
  "<w:r><w:rPr><w:highlight w:val='green'/></w:rPr>" +:+
  "<w:t>secret2</w:t></w:r></w:p>" +:+ xml_epilog.

(** A highlight marker without the [w:val] attribute. *)
Definition missing_color : Element :=
  body_of [element W_P [] None
             [run_of [element W_HIGHLIGHT [] None []] "secret"]].
Definition missing_color_xml : string :=
  xml_prolog +:+
  "<w:p><w:r><w:rPr><w:highlight/></w:rPr><w:t>secret</w:t></w:r></w:p>"
  +:+ xml_epilog.

(** A marker outside any run or paragraph, followed by an ordinary
    highlighted run. *)
Definition orphan_highlight : Element :=
  body_of [highlight "yellow";
           element W_P [] None [run_of [highlight "yellow"] "secret"]].
Definition orphan_highlight_xml : string :=
  xml_prolog +:+ "<w:highlight w:val='yellow'/>" +:+
  "<w:p><w:r><w:rPr><w:highlight w:val='yellow'/></w:rPr>" +:+
  "<w:t>secret</w:t></w:r></w:p>" +:+ xml_epilog.

(** A paragraph whose mark is highlighted yellow and that holds a run
    highlighted green. *)
Definition paragraph_mark : Element :=
  body_of [element W_P [] None
             [element W_PPR [] None [element W_RPR [] None [highlight "yellow"]];
              run_of [highlight "green"] "secret2"]].
Definition paragraph_mark_xml : string :=
  xml_prolog +:+
  "<w:p><w:pPr><w:rPr><w:highlight w:val='yellow'/></w:rPr></w:pPr>" +:+
  "<w:r><w:rPr><w:highlight w:val='green'/></w:rPr>" +:+
  "<w:t>secret2</w:t></w:r></w:p>" +:+ xml_epilog.

(** A run whose properties record a tracked formatting change: the run
    properties hold a second, nested [w:rPr]. *)
Definition tracked_change : Element :=
  body_of [element W_P [] None
             [run_of [highlight "yellow";
                      element (qualified W_NS "rPrChange") [] None
                        [element W_RPR [] None []]]
                     "secret"]].
Definition tracked_change_xml : string :=
  xml_prolog +:+
  "<w:p><w:r><w:rPr><w:highlight w:val='yellow'/>" +:+
  "<w:rPrChange><w:rPr/></w:rPrChange></w:rPr>" +:+
  "<w:t>secret</w:t></w:r></w:p>" +:+ xml_epilog.

(** An element in a namespace the table does not bind. *)
Definition foreign_namespace : Element :=
  body_of [element (qualified "urn:example" "note") [] None []].
Definition foreign_namespace_xml : string :=
  xml_prolog +:+ "<x:note xmlns:x='urn:example'/>" +:+ xml_epilog.

(** A run whose text keeps its blanks: the attribute [xml:space], which
    Word writes on most text elements. *)
Definition preserved_space : Element :=
  body_of [element W_P [] None
             [element W_R [] None
                [element W_RPR [] None [highlight "yellow"];
                 element W_T [(qualified XML_NS "space", "preserve")]
                   (Some " secret ") []]]].
Definition preserved_space_xml : string :=
  xml_prolog +:+
  "<w:p><w:r><w:rPr><w:highlight w:val='yellow'/></w:rPr>" +:+
  "<w:t xml:space='preserve'> secret </w:t></w:r></w:p>" +:+ xml_epilog.

(** What the parser returns on the sample texts. *)
Definition sample_parser (data : string) : outcome Element :=
  match
    list_find (λ entry, entry.1 = data)
      [ (two_runs_xml, two_runs);
        (missing_color_xml, missing_color);
        (orphan_highlight_xml, orphan_highlight);
        (paragraph_mark_xml, paragraph_mark);
        (tracked_change_xml, tracked_change);
        (foreign_namespace_xml, foreign_namespace);
        (preserved_space_xml, preserved_space) ]
  with
  | Some (_, entry) => Return entry.2
  | None => Raise (mk_exception ParseError "syntax error: line 1, column 0")
  end.

Definition sample_info (name : string) : ZipInfo :=
  {| filename := name; date_time := (1980, 1, 1, 0, 0, 0); compress_type := 8;
     flag_bits := 0; zi_comment := EmptyString; extra := EmptyString;
     external_attr := 0 |}.

Definition sample_archive (document_xml : string) : ZipFile :=
  {| filelist :=
       [ (sample_info "[Content_Types].xml", "<Types/>");
         (sample_info "word/document.xml", document_xml);
         (sample_info "word/styles.xml", "<w:styles/>") ];
     comment := "draft" |}.

(** A fresh interpreter with one file, before [DocxRedactor()] runs. *)
Definition fresh_process (document_xml : string) : World :=
  {| is_open := false; path := None; doc_info := None; root := None;
     parent_map := None; heap := empty_heap;
     ET_namespace_map := default_namespace_map;
     ET_namespaces := _namespaces;
     XMLParser := sample_parser;
     files := {["report.docx" := ZipArchive (sample_archive document_xml)]};
     stdout := [] |}.

(** The state after [redactor = DocxRedactor(); redactor.open("report.docx")]. *)
Definition opened (document_xml : string) : World :=
  ((__init__ ;;; open "report.docx")%py (fresh_process document_xml)).2.

(** The element of a tree at a position in document order; in a tree fresh
    from the parser the position is the identity. *)
Definition node_at (tree : Element) (i : nat) : Element :=
  default tree (nodes tree !! i).

(** The archive stored in the sample file. *)
Definition saved_archive (w : World) : option ZipFile :=
  match files w !! "report.docx" with
  | Some (ZipArchive z) => Some z
  | _ => None
  end.

(* ================================================================== *)
(** * Tactics *)
(* ================================================================== *)

(** Membership in a list that evaluates to its elements, and case analysis
    on such a membership. *)
Ltac member := apply list_elem_of_In; vm_compute;
  repeat (first [left; reflexivity | right]).

Ltac each_member H :=
  apply list_elem_of_In in H; vm_compute in H;
  repeat (destruct H as [H|H]; [symmetry in H|]); [..|destruct H].

(* ================================================================== *)
(** * The namespace table and [expand] *)
(* ================================================================== *)

Lemma Element_induction (P : Element → Prop) :
  (∀ e, Forall P (children e) → P e) → ∀ e, P e.
Proof.
  intros IH. fix F 1. intros e. apply IH.
  destruct e as [i t a tx tl cs]. simpl.
  induction cs as [|c cs IHcs]; constructor; [apply F | apply IHcs].
Qed.

Lemma split_once_app sep p l :
  contains sep p = false →
  split_once sep (p +:+ String sep l) = [p; l].
Proof.
  induction p as [|c p IH]; simpl; intros H.
  - by rewrite Ascii.eqb_refl.
  - apply orb_false_iff in H as [Hc Hp]. rewrite Hc, (IH Hp). done.
Qed.

Lemma rsplit_once_app sep p l :
  contains sep l = false →
  rsplit_once sep (p +:+ String sep l) = [p; l].
Proof.
  intros Hl.
  assert (Hnone : ∀ s, contains sep s = false → rsplit_once sep s = [s]).
  { induction s as [|c s IH]; simpl; [done|]. intros H.
    apply orb_false_iff in H as [Hc Hs]. by rewrite (IH Hs), Hc. }
  induction p as [|c p IH]; simpl.
  - by rewrite (Hnone _ Hl), Ascii.eqb_refl.
  - by rewrite IH.
Qed.

Lemma dict_get_Some_In d k v : dict_get d k = Some v → In (k, v) d.
Proof.
  induction d as [|[k' v'] d IH]; simpl; [done|].
  destruct (String.eqb_spec k' k) as [->|_].
  - intros [= ->]. by left.
  - intros H. right. by apply IH.
Qed.

Lemma namespaces_key_no_colon p uri :
  dict_get namespaces p = Some uri → contains colon p = false.
Proof.
  intros H. apply dict_get_Some_In in H. unfold namespaces in H.
  repeat (destruct H as [[= <- <-]|H]; [reflexivity|]). destruct H.
Qed.

(** A tag without a colon is no shorthand: the unpacking fails before the
    table is consulted. *)
Lemma expand_no_colon tag :
  contains colon tag = false →
  expand tag
  = Raise (mk_exception ValueError
             "not enough values to unpack (expected 2, got 1)").
Proof.
  intros H. unfold expand.
  assert (split_once colon tag = [tag]) as ->; [|reflexivity].
  induction tag as [|c tag IH]; simpl in *; [done|].
  apply orb_false_iff in H as [-> H]. by rewrite (IH H).
Qed.

(** Claim C8, as the code has it.  On a shorthand tag whose prefix holds no
    colon and is not a key of the namespace table, [expand] raises
    [SyntaxError] with the message [prefix '<prefix>' not found in prefix
    map], which names the unknown prefix; [SyntaxError] is not a subclass of
    [LookupError].  On a tag whose prefix is a key of the table, [expand]
    returns the qualified name built from the URI of the prefix and the
    local name. *)
Theorem expand_spec :
  (∀ prefix local,
     contains colon prefix = false →
     dict_get namespaces prefix = None →
     expand (prefix +:+ String colon local)
     = Raise (mk_exception SyntaxError
                ("prefix " +:+ repr prefix +:+ " not found in prefix map")))
  ∧ issubclass SyntaxError LookupError = false
  ∧ (∀ prefix uri local,
       dict_get namespaces prefix = Some uri →
       expand (prefix +:+ String colon local) = Return (qualified uri local)).
Proof.
  split; [|split].
  - intros prefix local Hc Hn. unfold expand.
    rewrite (split_once_app _ _ _ Hc). simpl.
    unfold dict_getitem. rewrite Hn. reflexivity.
  - reflexivity.
  - intros prefix uri local Hn. unfold expand.
    rewrite (split_once_app _ _ _ (namespaces_key_no_colon _ _ Hn)). simpl.
    unfold dict_getitem. rewrite Hn. reflexivity.
Qed.

(** Claim C8 on [x:foo] and on [w:val]. *)
Lemma expand_spec_witness :
  expand "x:foo" = Raise (mk_exception SyntaxError "prefix 'x' not found in prefix map")
  ∧ expand "w:val" = Return W_VAL.
Proof.
  split.
  - exact (proj1 expand_spec "x" "foo" eq_refl eq_refl).
  - exact (proj2 (proj2 expand_spec) "w" _ "val" eq_refl).
Defined.

(** Claim C8 fails as stated: [x] is not a key of the table, and what
    [expand] raises on [x:foo] is not an instance of [LookupError]. *)
Lemma expand_not_lookup_error :
  dict_get namespaces "x" = None
  ∧ ¬ ∃ e, expand "x:foo" = Raise e ∧ isinstance e LookupError = true.
Proof.
  split; [reflexivity|]. intros (e & He & Hi).
  vm_compute in He. injection He as <-. discriminate.
Qed.

(* ================================================================== *)
(** * Highlight queries *)
(* ================================================================== *)

Lemma expand_w_val : expand "w:val" = Return W_VAL.
Proof. reflexivity. Qed.
Lemma expand_w_highlight : expand "w:highlight" = Return W_HIGHLIGHT.
Proof. reflexivity. Qed.
Lemma expand_w_r : expand "w:r" = Return W_R.
Proof. reflexivity. Qed.
Lemma expand_w_p : expand "w:p" = Return W_P.
Proof. reflexivity. Qed.
Lemma expand_w_rPr : expand "w:rPr" = Return W_RPR.
Proof. reflexivity. Qed.
Lemma expand_w_pPr : expand "w:pPr" = Return W_PPR.
Proof. reflexivity. Qed.
Lemma expand_w_t : expand "w:t" = Return W_T.
Proof. reflexivity. Qed.

Lemma filter_flat_map {A B} (P : B → Prop) `{∀ x, Decision (P x)}
    (f : A → list B) (l : list A) :
  filter P (flat_map f l) = flat_map (λ x, filter P (f x)) l.
Proof.
  induction l as [|x l IH]; simpl; [done|]. by rewrite filter_app, IH.
Qed.

Lemma flat_map_ext_Forall {A B} (f g : A → list B) (l : list A) :
  Forall (λ x, f x = g x) l → flat_map f l = flat_map g l.
Proof. induction 1 as [|x l Hx _ IH]; simpl; [done|]. by rewrite Hx, IH. Qed.

Lemma iter_None_nodes e : iter None e = nodes e.
Proof.
  induction e as [e IH] using Element_induction.
  destruct e as [i t a tx tl cs]; simpl in *.
  f_equal. by apply flat_map_ext_Forall.
Qed.

Lemma iter_Some_nodes t e :
  iter (Some t) e = filter (λ x, tag x = t) (nodes e).
Proof.
  induction e as [e IH] using Element_induction.
  destruct e as [i t' a tx tl cs]; simpl in *.
  rewrite filter_cons, filter_flat_map. simpl.
  destruct (String.eqb_spec t' t) as [->|Hne].
  - rewrite decide_True by done. simpl. f_equal. by apply flat_map_ext_Forall.
  - rewrite decide_False by done. simpl. by apply flat_map_ext_Forall.
Qed.

Lemma Element_iter_highlight tree :
  Element_iter tree (Some W_HIGHLIGHT) = highlight_markers tree.
Proof. unfold Element_iter. simpl. apply iter_Some_nodes. Qed.

(** ** Loops over a list in the outcome monad *)

Lemma ofilter_Return {A} (f : A → outcome bool) (g : A → bool) l :
  (∀ x, x ∈ l → f x = Return (g x)) →
  ofilter f l = Return (List.filter g l).
Proof.
  induction l as [|x l IH]; simpl; intros H; [done|].
  rewrite (H x) by left. simpl. rewrite IH by (intros; apply H; by right).
  simpl. by destruct (g x).
Qed.

Lemma ofilter_Raise {A} (f : A → outcome bool) e l :
  (∀ x, x ∈ l → (∃ b, f x = Return b) ∨ f x = Raise e) →
  (∃ x, x ∈ l ∧ f x = Raise e) →
  ofilter f l = Raise e.
Proof.
  induction l as [|x l IH]; simpl; intros Hall (y & Hy & Hfy).
  - by apply elem_of_nil in Hy.
  - destruct (Hall x) as [[b Hb]|Hr]; [by left| |by rewrite Hr].
    rewrite Hb. simpl. rewrite IH; [done| |].
    + intros z Hz. apply Hall. by right.
    + apply elem_of_cons in Hy as [->|Hy]; [congruence|eauto].
Qed.

Lemma omap_list_Return {A B} (f : A → outcome B) (g : A → B) l :
  (∀ x, x ∈ l → f x = Return (g x)) →
  omap_list f l = Return (map g l).
Proof.
  induction l as [|x l IH]; simpl; intros H; [done|].
  rewrite (H x) by left. simpl. rewrite IH by (intros; apply H; by right).
  done.
Qed.

Lemma omap_list_Raise {A B} (f : A → outcome B) e l :
  (∀ x, x ∈ l → (∃ b, f x = Return b) ∨ f x = Raise e) →
  (∃ x, x ∈ l ∧ f x = Raise e) →
  omap_list f l = Raise e.
Proof.
  induction l as [|x l IH]; simpl; intros Hall (y & Hy & Hfy).
  - by apply elem_of_nil in Hy.
  - destruct (Hall x) as [[b Hb]|Hr]; [by left| |by rewrite Hr].
    rewrite Hb. simpl. rewrite IH; [done| |].
    + intros z Hz. apply Hall. by right.
    + apply elem_of_cons in Hy as [->|Hy]; [congruence|eauto].
Qed.

(** ** [get_highlights] and [get_all_colors] *)

Lemma document_root w tree :
  document w = Some tree → ∃ r, root w = Some r ∧ tree = current (heap w) r.
Proof.
  unfold document. destruct (root w) as [r|]; simpl; [|done].
  intros [= <-]. eauto.
Qed.

Lemma self_root_document w tree :
  document w = Some tree → self_root w = (Return tree, w).
Proof.
  intros (r & Hr & ->)%document_root. unfold self_root, bind, gets, deref.
  by rewrite Hr.
Qed.

Lemma dict_getitem_color h :
  dict_getitem (attrib h) W_VAL
  = match color_of h with
    | Some c => Return c
    | None => Raise (mk_exception KeyError (repr W_VAL))
    end.
Proof. reflexivity. Qed.

Lemma get_highlights_None w tree :
  document w = Some tree →
  get_highlights None w = (Return (highlight_markers tree), w).
Proof.
  intros Hd. unfold get_highlights.
  rewrite expand_w_val, expand_w_highlight.
  unfold bind at 1. unfold lift at 1. unfold bind at 1.
  rewrite (self_root_document _ _ Hd). unfold bind, lift, ret.
  by rewrite Element_iter_highlight.
Qed.

Lemma get_highlights_Some w tree c :
  document w = Some tree →
  get_highlights (Some c) w
  = (ofilter (λ h, (v <- dict_getitem (attrib h) W_VAL ;;
                    Return (String.eqb v c))%out)
       (highlight_markers tree), w).
Proof.
  intros Hd. unfold get_highlights.
  rewrite expand_w_val, expand_w_highlight.
  unfold bind at 1. unfold lift at 1. unfold bind at 1.
  rewrite (self_root_document _ _ Hd). unfold bind, lift, ret.
  by rewrite Element_iter_highlight.
Qed.

Lemma filter_has_color c l :
  (∀ h : Element, h ∈ l → is_Some (color_of h)) →
  List.filter (λ h, match color_of h with
                    | Some v => String.eqb v c
                    | None => false
                    end) l
  = filter (has_color c) l.
Proof.
  induction l as [|h l IH]; intros Hall; [done|].
  rewrite filter_cons. simpl.
  rewrite IH by (intros; apply Hall; by right).
  destruct (Hall h) as [v Hv]; [by left|].
  unfold has_color at 1. rewrite Hv.
  destruct (String.eqb_spec v c) as [->|Hne].
  - by rewrite decide_True.
  - rewrite decide_False; [done|congruence].
Qed.

(** Claim C5, for a document all of whose highlight markers carry the
    [w:val] attribute.  [get_highlights] without a color returns all
    highlight markers of the tree in document order; [get_highlights] with
    color [c] returns the markers among them whose [w:val] is the string [c],
    in the same order.  Neither call changes the state. *)
Theorem get_highlights_spec w tree :
  document w = Some tree →
  (∀ h, h ∈ highlight_markers tree → is_Some (color_of h)) →
  get_highlights None w = (Return (highlight_markers tree), w)
  ∧ ∀ c, get_highlights (Some c) w
         = (Return (filter (has_color c) (highlight_markers tree)), w).
Proof.
  intros Hd Hall. split; [by apply get_highlights_None|].
  intros c. rewrite (get_highlights_Some _ _ _ Hd). f_equal.
  rewrite <- (filter_has_color c _ Hall).
  apply ofilter_Return. intros h Hh.
  rewrite dict_getitem_color. destruct (Hall h Hh) as [v ->]. done.
Qed.

(** Claim C10.  On an open document with a highlight marker that has no
    [w:val] attribute, [get_all_colors] raises [KeyError] on the qualified
    attribute name, and so does [get_highlights] with whatever color;
    neither changes the state. *)
Theorem missing_color_raises w tree :
  is_open w = true →
  document w = Some tree →
  (∃ h, h ∈ highlight_markers tree ∧ color_of h = None) →
  get_all_colors w = (Raise (mk_exception KeyError (repr W_VAL)), w)
  ∧ ∀ c, get_highlights (Some c) w
         = (Raise (mk_exception KeyError (repr W_VAL)), w).
Proof.
  intros Ho Hd (h & Hh & Hc). split.
  - unfold get_all_colors, check_open.
    unfold bind at 1. unfold bind at 1. unfold gets at 1. rewrite Ho.
    unfold ret at 1. unfold bind at 1.
    rewrite (get_highlights_None _ _ Hd). unfold bind, lift.
    rewrite (omap_list_Raise _ (mk_exception KeyError (repr W_VAL))); [done| |].
    + intros x _. rewrite expand_w_val. simpl. rewrite dict_getitem_color.
      destruct (color_of x); eauto.
    + exists h. split; [done|]. rewrite expand_w_val. simpl.
      by rewrite dict_getitem_color, Hc.
  - intros c. rewrite (get_highlights_Some _ _ _ Hd). f_equal.
    apply ofilter_Raise.
    + intros x _. rewrite dict_getitem_color. destruct (color_of x); simpl; eauto.
    + exists h. split; [done|]. by rewrite dict_getitem_color, Hc.
Qed.

Lemma sorted_frozenset_spec l :
  Sorted String.le (sorted_frozenset l)
  ∧ NoDup (sorted_frozenset l)
  ∧ ∀ c, c ∈ sorted_frozenset l ↔ c ∈ l.
Proof.
  unfold sorted_frozenset. split; [|split].
  - apply (Sorted_merge_sort String.le).
  - rewrite merge_sort_Permutation. apply NoDup_elements.
  - intros c. rewrite merge_sort_Permutation, elem_of_elements.
    apply elem_of_list_to_set.
Qed.

(** Claim C6, for an open document all of whose highlight markers carry the
    [w:val] attribute.  [get_all_colors] returns, without changing the
    state, a list that is sorted in ascending order of the strings, holds no
    color twice, and holds exactly the colors of the markers; without markers
    the list is empty; and a second call right after the first returns the
    same list. *)
Theorem get_all_colors_spec w tree :
  is_open w = true →
  document w = Some tree →
  (∀ h, h ∈ highlight_markers tree → is_Some (color_of h)) →
  ∃ colors,
    get_all_colors w = (Return colors, w)
    ∧ Sorted String.le colors
    ∧ NoDup colors
    ∧ (∀ c, c ∈ colors ↔ ∃ h, h ∈ highlight_markers tree ∧ color_of h = Some c)
    ∧ (highlight_markers tree = [] → colors = [])
    ∧ bind get_all_colors (λ first, bind get_all_colors (λ second,
        ret (first, second))) w = (Return (colors, colors), w).
Proof.
  intros Ho Hd Hall.
  set (cs := map (λ h, default EmptyString (color_of h)) (highlight_markers tree)).
  assert (Hrun : get_all_colors w = (Return (sorted_frozenset cs), w)).
  { unfold get_all_colors, check_open.
    unfold bind at 1. unfold bind at 1. unfold gets at 1. rewrite Ho.
    unfold ret at 1. unfold bind at 1.
    rewrite (get_highlights_None _ _ Hd). unfold bind, lift, ret.
    rewrite (omap_list_Return _ (λ h, default EmptyString (color_of h))); [done|].
    intros h Hh. rewrite expand_w_val. simpl. rewrite dict_getitem_color.
    by destruct (Hall h Hh) as [v ->]. }
  exists (sorted_frozenset cs).
  destruct (sorted_frozenset_spec cs) as (Hs & Hn & Hm).
  split; [done|]. split; [done|]. split; [done|]. split; [|split].
  - intros c. rewrite Hm. unfold cs. rewrite list_elem_of_fmap. split.
    + intros (h & -> & Hh). exists h. split; [done|].
      by destruct (Hall h Hh) as [v ->].
    + intros (h & Hh & Hc). exists h. by rewrite Hc.
  - intros Hnil. unfold cs. rewrite Hnil. reflexivity.
  - unfold bind at 1. rewrite Hrun. unfold bind. rewrite Hrun. done.
Qed.

(* ================================================================== *)
(** * Serialisation under the namespace table *)
(* ================================================================== *)

(** ** The namespace table *)

Ltac table_cases H :=
  apply dict_get_Some_In in H; unfold namespaces in H;
  repeat (destruct H as [[= <- <-]|H]; [|]); [..|destruct H].

Lemma table_registered prefix uri :
  dict_get namespaces prefix = Some uri →
  dict_get registered_namespace_map uri = Some prefix.
Proof. intros H. table_cases H; reflexivity. Qed.

Lemma table_prefix_facts prefix uri :
  dict_get namespaces prefix = Some uri →
  prefix ≠ EmptyString ∧ prefix ≠ "xml" ∧ reserved_prefix prefix = false.
Proof. intros H. table_cases H; done. Qed.

Lemma table_flipped prefix uri :
  dict_get namespaces prefix = Some uri ↔
  dict_get (flipped_namespaces namespaces) uri = Some prefix.
Proof.
  split; intros H.
  - table_cases H; reflexivity.
  - apply dict_get_Some_In in H. vm_compute in H.
    repeat (destruct H as [[= <- <-]|H]; [reflexivity|]). destruct H.
Qed.

(** The table read by URI gives the prefix back. *)
Lemma table_bound prefix uri :
  dict_get namespaces prefix = Some uri →
  bound_prefix namespaces uri = Some prefix ∧ prefix_of uri = Some prefix.
Proof. intros H. table_cases H; split; reflexivity. Qed.

Lemma bound_prefix_In table uri prefix :
  bound_prefix table uri = Some prefix → In (prefix, uri) table.
Proof.
  induction table as [|[p u] table IH]; simpl; [done|].
  destruct (String.eqb_spec u uri) as [->|_].
  - intros [= ->]. by left.
  - intros H. right. by apply IH.
Qed.

Lemma bound_table uri prefix :
  bound_prefix namespaces uri = Some prefix →
  dict_get namespaces prefix = Some uri.
Proof.
  intros H%bound_prefix_In. unfold namespaces in H.
  repeat (destruct H as [[= <- <-]|H]; [reflexivity|]). destruct H.
Qed.

Lemma prefix_of_cases uri prefix :
  prefix_of uri = Some prefix →
  (uri = XML_NS ∧ prefix = "xml") ∨ dict_get namespaces prefix = Some uri.
Proof.
  unfold prefix_of. destruct (String.eqb_spec uri XML_NS) as [->|_].
  - intros [= <-]. by left.
  - intros H. right. by apply bound_table.
Qed.

(** No prefix the table or [xml:] gives is of the form the serializer
    generates. *)
Lemma prefix_of_not_generated uri prefix :
  prefix_of uri = Some prefix → reserved_prefix prefix = false.
Proof.
  intros [[_ ->]|H]%prefix_of_cases; [done|].
  by destruct (table_prefix_facts _ _ H) as (_ & _ & ?).
Qed.

(** ** Names as the table writes them *)

Lemma written_name_unqualified q :
  (∀ rest, q ≠ String lbrace rest) → written_name q = q.
Proof.
  intros Hq. destruct q as [|c rest]; [done|]. simpl.
  destruct (Ascii.eqb_spec c lbrace) as [->|_]; [by destruct (Hq rest)|done].
Qed.

Lemma written_name_qualified uri local prefix :
  prefix_of uri = Some prefix → contains rbrace local = false →
  written_name (qualified uri local) = prefix +:+ String colon local.
Proof.
  intros Hp Hl. unfold written_name, qualified. rewrite Ascii.eqb_refl.
  by rewrite (rsplit_once_app _ _ _ Hl), Hp.
Qed.

Lemma documented_name_cases q :
  documented_name q →
  (∀ rest, q ≠ String lbrace rest) ∧ written_name q = q
  ∨ ∃ prefix uri local,
      q = qualified uri local
      ∧ contains rbrace local = false
      ∧ prefix_of uri = Some prefix
      ∧ written_name q = prefix +:+ String colon local.
Proof.
  intros [Hq|[(prefix & uri & local & Ht & -> & Hl)|(local & -> & Hl)]].
  - left. split; [done|by apply written_name_unqualified].
  - right. exists prefix, uri, local.
    destruct (table_bound _ _ Ht) as [_ Hp].
    split; [done|]. split; [done|]. split; [done|].
    by apply written_name_qualified.
  - right. exists "xml", XML_NS, local.
    split; [done|]. split; [done|]. split; [done|].
    by apply written_name_qualified.
Qed.

(** ** [__init__] and the registry *)

Lemma bind_Return {A B} (m : Py A) (k : A → Py B) w a w' :
  m w = (Return a, w') → bind m k w = k a w'.
Proof. unfold bind. by intros ->. Qed.

Lemma bind_Raise {A B} (m : Py A) (k : A → Py B) w e w' :
  m w = (Raise e, w') → bind m k w = (Raise e, w').
Proof. unfold bind. by intros ->. Qed.

Lemma init_spec w :
  ET_namespace_map w = default_namespace_map →
  __init__ w
  = (Return tt,
     mkWorld false None None None None (heap w) registered_namespace_map
       (_namespace_replacement namespaces (ET_namespaces w))
       (XMLParser w) (files w) (stdout w)).
Proof. destruct w; simpl. intros ->. reflexivity. Qed.

(** On a fresh interpreter [DocxRedactor()] installs the table. *)
Lemma init_installed w w' :
  ET_namespace_map w = default_namespace_map →
  ET_namespaces w = _namespaces →
  __init__ w = (Return tt, w') → installed w'.
Proof.
  intros Hm Hn. rewrite (init_spec _ Hm). intros [= <-].
  split; [|split]; simpl.
  - apply table_registered.
  - reflexivity.
  - rewrite Hn. apply replaced_once.
Qed.

(** However often the method has been replaced, it returns the names the
    library computes and the table turned round. *)
Lemma replaced_spec f :
  replaced f →
  ∀ registry elem,
    f registry elem
    = match _namespaces registry elem with
      | Return (qnames, _) => Return (qnames, flipped_namespaces namespaces)
      | Raise e => Raise e
      | Diverge => Diverge
      end.
Proof.
  induction 1 as [|f _ IH]; intros registry elem.
  - unfold _namespace_replacement.
    by destruct (_namespaces registry elem) as [[qnames nss]| |].
  - unfold _namespace_replacement at 1. rewrite IH.
    by destruct (_namespaces registry elem) as [[qnames nss]| |].
Qed.

Lemma dict_get_set d k v k' :
  dict_get (dict_set d k v) k'
  = if String.eqb k k' then Some v else dict_get d k'.
Proof.
  induction d as [|[k0 v0] d IH]; simpl.
  - done.
  - destruct (String.eqb_spec k0 k) as [->|Hne]; simpl.
    + destruct (String.eqb_spec k k'); done.
    + rewrite IH. destruct (String.eqb_spec k0 k') as [->|]; [|done].
      destruct (String.eqb_spec k k'); [congruence|done].
Qed.

Lemma dict_get_In d k v :
  NoDup (map fst d) → (k, v) ∈ d → dict_get d k = Some v.
Proof.
  induction d as [|[k0 v0] d IH]; intros Hnd Hin; [by apply elem_of_nil in Hin|].
  simpl in *. apply NoDup_cons in Hnd as [Hk0 Hnd].
  apply elem_of_cons in Hin as [[= -> ->]|Hin].
  - by rewrite String.eqb_refl.
  - destruct (String.eqb_spec k0 k) as [->|_]; [|by apply IH].
    destruct Hk0. apply list_elem_of_fmap. by exists (k, v).
Qed.

Lemma dict_del_elem_of d k0 k v :
  (k, v) ∈ dict_del d k0 ↔ (k, v) ∈ d ∧ k ≠ k0.
Proof.
  unfold dict_del, dict. rewrite list_elem_of_filter. simpl.
  destruct (String.eqb_spec k k0); naive_solver.
Qed.

Lemma dict_del_keys d k0 : NoDup (map fst d) → NoDup (map fst (dict_del d k0)).
Proof.
  unfold dict_del, dict. induction d as [|[k v] d IH]; [done|].
  cbn [map fst]. intros [Hk Hnd]%NoDup_cons. rewrite filter_cons.
  destruct (decide _); [|by apply IH].
  cbn [map fst]. apply NoDup_cons. split; [|by apply IH].
  intros ([k' v'] & Heq & [_ Hin]%list_elem_of_filter)%list_elem_of_fmap.
  simpl in Heq. subst k'. apply Hk. apply list_elem_of_fmap. by exists (k, v').
Qed.

Lemma dict_set_keys d k v :
  NoDup (map fst d) → NoDup (map fst (dict_set d k v)).
Proof.
  induction d as [|[k0 v0] d IH]; simpl.
  - intros _. apply NoDup_singleton.
  - intros [Hk0 Hnd]%NoDup_cons.
    destruct (String.eqb_spec k0 k) as [->|Hne]; simpl.
    + by apply NoDup_cons.
    + apply NoDup_cons. split; [|by apply IH].
      intros ([k' v'] & Heq & Hin)%list_elem_of_fmap. simpl in Heq. subst k'.
      assert (dict_get (dict_set d k v) k0 = Some v') as Hget.
      { apply dict_get_In; [by apply IH|done]. }
      rewrite dict_get_set in Hget.
      destruct (String.eqb_spec k k0) as [->|_]; [done|].
      apply Hk0. apply dict_get_Some_In, list_elem_of_In in Hget.
      apply list_elem_of_fmap. by exists (k0, v').
Qed.

(** The deletions of [register_namespace]: an entry goes when an entry of
    its key has the URI as key or the prefix as value. *)
Lemma register_deletions uri prefix (l acc : dict) k v :
  (k, v) ∈ foldl (λ reg kv, if String.eqb kv.1 uri || String.eqb kv.2 prefix
                            then dict_del reg kv.1 else reg) acc l
  ↔ (k, v) ∈ acc
    ∧ ¬ ∃ v', (k, v') ∈ l ∧ (k = uri ∨ v' = prefix).
Proof.
  revert acc. induction l as [|[k0 v0] l IH]; intros acc; simpl.
  - split; [|by intros [? _]]. intros H. split; [done|].
    by intros (v' & ?%elem_of_nil & _).
  - rewrite IH. simpl.
    destruct (String.eqb_spec k0 uri) as [->|Hk]; simpl.
    + rewrite dict_del_elem_of. split.
      * intros [[Hin Hne] Hno]. split; [done|].
        intros (v' & [[= -> ->]|Hin']%elem_of_cons & Hor); [done|].
        apply Hno. eauto.
      * intros [Hin Hno]. split; [split; [done|]|].
        -- intros ->. apply Hno. exists v0. split; [by left|by left].
        -- intros (v' & Hin' & Hor). apply Hno. exists v'. split; [by right|done].
    + destruct (String.eqb_spec v0 prefix) as [->|Hv]; simpl.
      * rewrite dict_del_elem_of. split.
        -- intros [[Hin Hne] Hno]. split; [done|].
           intros (v' & [[= -> ->]|Hin']%elem_of_cons & Hor); [done|].
           apply Hno. eauto.
        -- intros [Hin Hno]. split; [split; [done|]|].
           ++ intros ->. apply Hno. exists prefix. split; [by left|by right].
           ++ intros (v' & Hin' & Hor). apply Hno. exists v'.
              split; [by right|done].
      * split.
        -- intros [Hin Hno]. split; [done|].
           intros (v' & [[= -> ->]|Hin']%elem_of_cons & [?|?]); [done|done|..];
             apply Hno; eauto.
        -- intros [Hin Hno]. split; [done|].
           intros (v' & Hin' & Hor). apply Hno. exists v'. split; [by right|done].
Qed.

Lemma register_deletions_keys uri prefix (l acc : dict) :
  NoDup (map fst acc) →
  NoDup (map fst (foldl (λ reg kv,
                           if String.eqb kv.1 uri || String.eqb kv.2 prefix
                           then dict_del reg kv.1 else reg) acc l)).
Proof.
  revert acc. induction l as [|[k0 v0] l IH]; intros acc Hnd; simpl; [done|].
  apply IH. destruct (_ || _); [by apply dict_del_keys|done].
Qed.

(** [register_namespace] binds the URI to the prefix and keeps every
    binding of another URI to another prefix. *)
Lemma register_namespace_spec registry prefix uri :
  NoDup (map fst registry) →
  reserved_prefix prefix = false →
  ∃ registry',
    register_namespace registry prefix uri = Return registry'
    ∧ NoDup (map fst registry')
    ∧ dict_get registry' uri = Some prefix
    ∧ ∀ k v, k ≠ uri → v ≠ prefix →
             dict_get registry k = Some v → dict_get registry' k = Some v.
Proof.
  intros Hnd Hres. unfold register_namespace. rewrite Hres.
  eexists. split; [done|].
  pose proof (register_deletions_keys uri prefix registry registry Hnd) as Hnd'.
  split; [by apply dict_set_keys|]. split.
  - by rewrite dict_get_set, String.eqb_refl.
  - intros k v Hk Hv Hget. rewrite dict_get_set.
    destruct (String.eqb_spec uri k) as [->|_]; [done|].
    apply dict_get_In; [done|]. apply register_deletions.
    split; [by apply list_elem_of_In, dict_get_Some_In|].
    intros (v' & Hin' & [-> | ->]); [done|].
    apply (dict_get_In _ _ _ Hnd) in Hin'. congruence.
Qed.

Lemma set_ET_namespace_map_twice r1 r2 w :
  set_ET_namespace_map r1 (set_ET_namespace_map r2 w)
  = set_ET_namespace_map r1 w.
Proof. done. Qed.

(** The loop of [__init__] over a table of distinct prefixes and distinct
    URIs. *)
Lemma register_all (table : dict) w :
  NoDup (map fst table) → NoDup (map snd table) →
  (∀ kv, kv ∈ table → reserved_prefix kv.1 = false) →
  NoDup (map fst (ET_namespace_map w)) →
  ∃ registry',
    for_each table (λ kv, ET_register_namespace kv.1 kv.2) w
    = (Return tt, set_ET_namespace_map registry' w)
    ∧ NoDup (map fst registry')
    ∧ (∀ kv, kv ∈ table → dict_get registry' kv.2 = Some kv.1)
    ∧ ∀ k v, dict_get (ET_namespace_map w) k = Some v →
             k ∉ map snd table → v ∉ map fst table →
             dict_get registry' k = Some v.
Proof.
  revert w. induction table as [|[p u] table IH]; intros w Hp Hu Hres Hnd.
  - exists (ET_namespace_map w). split; [by destruct w|]. split; [done|].
    split; [by intros kv ?%elem_of_nil|done].
  - simpl in Hp, Hu. apply NoDup_cons in Hp as [Hp Hps].
    apply NoDup_cons in Hu as [Hu Hus].
    destruct (register_namespace_spec (ET_namespace_map w) p u Hnd)
      as (r1 & Hr1 & Hnd1 & Hget1 & Hkeep1); [apply (Hres (p, u)); by left|].
    destruct (IH (set_ET_namespace_map r1 w) Hps Hus) as (r2 & Hr2 & Hnd2 & Hall2 & Hkeep2).
    { intros kv Hkv. apply Hres. by right. }
    { done. }
    exists r2. split; [|split; [done|split]].
    + cbn [for_each]. erewrite bind_Return; cycle 1.
      { unfold ET_register_namespace.
        erewrite bind_Return; [|reflexivity].
        erewrite bind_Return; [|unfold lift; cbn [fst snd]; rewrite Hr1; reflexivity].
        reflexivity. }
      rewrite Hr2. by rewrite set_ET_namespace_map_twice.
    + intros kv [->|Hkv]%elem_of_cons; [|by apply Hall2].
      simpl. apply Hkeep2; [done|done|done].
    + intros k v Hget Hk Hv. apply Hkeep2.
      * apply Hkeep1; [|  |done].
        -- intros ->. apply Hk. by left.
        -- intros ->. apply Hv. by left.
      * intros Hin. apply Hk. by right.
      * intros Hin. apply Hv. by right.
Qed.

Lemma table_distinct :
  NoDup (map fst namespaces) ∧ NoDup (map snd namespaces)
  ∧ (∀ kv, kv ∈ namespaces → reserved_prefix kv.1 = false)
  ∧ (XML_NS ∉ map snd namespaces) ∧ ("xml" ∉ map fst namespaces).
Proof.
  split; [|split; [|split; [|split]]].
  - apply (bool_decide_unpack _). vm_compute. exact I.
  - apply (bool_decide_unpack _). vm_compute. exact I.
  - intros [p u] Hin. apply list_elem_of_In in Hin. unfold namespaces in Hin.
    repeat (destruct Hin as [[= <- <-]|Hin]; [reflexivity|]). destruct Hin.
  - apply (bool_decide_unpack _). vm_compute. exact I.
  - apply (bool_decide_unpack _). vm_compute. exact I.
Qed.

(** [DocxRedactor()] raises nothing and installs the table on every
    registry that binds [xml:], whatever else is registered, and however
    often it has run before. *)
Lemma init_installs w :
  NoDup (map fst (ET_namespace_map w)) →
  dict_get (ET_namespace_map w) XML_NS = Some "xml" →
  ET_namespaces w = _namespaces ∨ replaced (ET_namespaces w) →
  ∃ w',
    __init__ w = (Return tt, w')
    ∧ installed w'
    ∧ NoDup (map fst (ET_namespace_map w'))
    ∧ is_open w' = false ∧ root w' = None ∧ files w' = files w
    ∧ stdout w' = stdout w.
Proof.
  intros Hnd Hxml Hmeth.
  destruct table_distinct as (Hp & Hu & Hres & Hxu & Hxp).
  set (w0 := set_ET_namespaces
               (_namespace_replacement namespaces (ET_namespaces w))
               (set_parent_map None (set_root None (set_doc_info None
                  (set_path None (set_is_open false w)))))).
  destruct (register_all namespaces w0 Hp Hu Hres Hnd)
    as (r' & Hrun & Hnd' & Hall & Hkeep).
  exists (set_ET_namespace_map r' w0).
  split; [|split; [|by repeat split]].
  - unfold __init__.
    do 5 (erewrite bind_Return; [|reflexivity]).
    erewrite bind_Return; [|reflexivity].
    exact Hrun.
  - split; [|split].
    + intros prefix uri Ht. apply dict_get_Some_In, list_elem_of_In in Ht.
      apply (Hall (prefix, uri) Ht).
    + by apply Hkeep.
    + simpl. destruct Hmeth as [->|Hrep]; [apply replaced_once|].
      by apply replaced_again.
Qed.

(** ** [_namespaces] on a documented tree *)

Section documented_names.
Variable registry : dict.
Hypothesis registry_table :
  ∀ prefix uri, dict_get namespaces prefix = Some uri →
                dict_get registry uri = Some prefix.
Hypothesis registry_xml : dict_get registry XML_NS = Some "xml".

Lemma registry_prefix_of uri prefix :
  prefix_of uri = Some prefix → dict_get registry uri = Some prefix.
Proof using Type*.
  intros [[-> ->]|H]%prefix_of_cases; [done|by apply registry_table].
Qed.

Lemma nss_prefix_of nss uri prefix p :
  nss_ok nss → prefix_of uri = Some prefix → dict_get nss uri = Some p →
  p = prefix.
Proof using Type*.
  intros Hn Hp Hget. apply Hn in Hget.
  apply prefix_of_cases in Hp as [[-> ->]|Ht]; [done|].
  destruct (table_bound _ _ Ht) as [Hb _]. congruence.
Qed.

Lemma add_qname_documented q qnames nss :
  documented_name q → nss_ok nss →
  ∃ nss', add_qname registry q (qnames, nss)
          = Return (<[q := written_name q]> qnames, nss')
          ∧ nss_ok nss'.
Proof using Type*.
  intros Hq Hn.
  destruct (documented_name_cases q Hq)
    as [[Hu ->]|(prefix & uri & local & -> & Hl & Hp & ->)].
  - exists nss. split; [|done].
    unfold add_qname. destruct q as [|c rest]; [done|].
    destruct (Ascii.eqb_spec c lbrace) as [->|_]; [by destruct (Hu rest)|done].
  - assert (Henc : encoded_qname prefix local = prefix +:+ String colon local).
    { unfold encoded_qname. rewrite bool_decide_eq_false_2; [done|].
      intros ->. apply prefix_of_cases in Hp as [[_ ?]|Ht]; [done|].
      by destruct (table_prefix_facts _ _ Ht) as (? & _). }
    pose proof (registry_prefix_of _ _ Hp) as Hreg.
    unfold add_qname, qualified. rewrite Ascii.eqb_refl.
    rewrite (rsplit_once_app _ _ _ Hl). cbn [unpack2 obind].
    destruct (dict_get nss uri) as [p|] eqn:Hnss.
    + rewrite (nss_prefix_of _ _ _ _ Hn Hp Hnss), Henc. eauto.
    + rewrite Hreg, Henc. eexists. split; [done|].
      case_bool_decide as Hxml; [done|].
      intros u p. rewrite dict_get_set.
      destruct (String.eqb_spec uri u) as [<-|_]; [|apply Hn].
      intros [= <-]. apply prefix_of_cases in Hp as [[_ ?]|Ht]; [done|].
      by destruct (table_bound _ _ Ht) as [? _].
Qed.

Lemma note_qname_documented q st :
  documented_name q → qnames_ok st →
  ∃ st', note_qname registry st q = Return st'
         ∧ qnames_ok st'
         ∧ st'.1 !! q = Some (written_name q)
         ∧ ∀ q0, is_Some (st.1 !! q0) → is_Some (st'.1 !! q0).
Proof using Type*.
  intros Hq [Hr Hn]. unfold note_qname. destruct (st.1 !! q) as [r|] eqn:Hl.
  - exists st. split; [done|]. split; [done|]. split; [|done].
    rewrite Hl. f_equal. by apply Hr.
  - destruct st as [qnames nss].
    destruct (add_qname_documented q qnames nss Hq Hn) as (nss' & -> & Hn').
    eexists. split; [done|]. simpl. split; [|split].
    + split; [|done]. intros q0 r0. simpl. rewrite lookup_insert.
      case_decide as Heq; [intros [= <-]; by subst|apply Hr].
    + by rewrite lookup_insert_eq.
    + intros q0 H0. rewrite lookup_insert. by case_decide.
Qed.

Lemma note_qnames_documented qs st :
  (∀ q, q ∈ qs → documented_name q) → qnames_ok st →
  ∃ st', ofold (note_qname registry) qs st = Return st'
         ∧ qnames_ok st'
         ∧ (∀ q, q ∈ qs → is_Some (st'.1 !! q))
         ∧ ∀ q0, is_Some (st.1 !! q0) → is_Some (st'.1 !! q0).
Proof using Type*.
  revert st. induction qs as [|q qs IH]; intros st Hqs Hok; simpl.
  - exists st. split; [done|]. split; [done|]. split; [|done].
    intros q Hq. by apply elem_of_nil in Hq.
  - destruct (note_qname_documented q st) as (st1 & -> & Hok1 & Hq1 & Hmono1);
      [apply Hqs; by left|done|].
    simpl.
    destruct (IH st1) as (st2 & -> & Hok2 & Hq2 & Hmono2);
      [intros; apply Hqs; by right|done|].
    exists st2. split; [done|]. split; [done|]. split.
    + intros q0 [->|H0]%elem_of_cons; [by apply Hmono2|by apply Hq2].
    + intros q0 H0. by apply Hmono2, Hmono1.
Qed.

Lemma note_element_documented e st :
  (∀ q, q ∈ names e → documented_name q) → qnames_ok st →
  ∃ st', note_element registry st e = Return st'
         ∧ qnames_ok st'
         ∧ (∀ q, q ∈ names e → is_Some (st'.1 !! q))
         ∧ ∀ q0, is_Some (st.1 !! q0) → is_Some (st'.1 !! q0).
Proof using Type*.
  intros Hq Hok. unfold note_element.
  destruct (note_qnames_documented (names e) st Hq Hok) as (st' & Hrun & H).
  exists st'. split; [|done]. unfold names in Hrun. simpl in Hrun.
  exact Hrun.
Qed.

Lemma note_elements_documented es st :
  (∀ e q, e ∈ es → q ∈ names e → documented_name q) → qnames_ok st →
  ∃ st', ofold (note_element registry) es st = Return st'
         ∧ qnames_ok st'
         ∧ (∀ e q, e ∈ es → q ∈ names e → is_Some (st'.1 !! q))
         ∧ ∀ q0, is_Some (st.1 !! q0) → is_Some (st'.1 !! q0).
Proof using Type*.
  revert st. induction es as [|e es IH]; intros st Hes Hok; simpl.
  - exists st. split; [done|]. split; [done|]. split; [|done].
    intros e q He. by apply elem_of_nil in He.
  - destruct (note_element_documented e st) as (st1 & -> & Hok1 & Hq1 & Hmono1);
      [intros; eapply Hes; [by left|done]|done|].
    simpl.
    destruct (IH st1) as (st2 & -> & Hok2 & Hq2 & Hmono2);
      [intros; eapply Hes; [by right|done]|done|].
    exists st2. split; [done|]. split; [done|]. split.
    + intros e0 q0 [->|H0]%elem_of_cons Hq0; [by apply Hmono2, Hq1|by eapply Hq2].
    + intros q0 H0. by apply Hmono2, Hmono1.
Qed.

(** On a documented tree [_namespaces] returns, and it maps every name of
    the tree to the name as the table writes it. *)
Lemma namespaces_documented tree :
  documented tree →
  ∃ qnames nss,
    _namespaces registry tree = Return (qnames, nss)
    ∧ ∀ e q, e ∈ nodes tree → q ∈ names e →
             qnames !! q = Some (written_name q).
Proof using Type*.
  intros Hdoc. unfold _namespaces, Element_iter. rewrite iter_None_nodes.
  destruct (note_elements_documented (nodes tree) (∅, []))
    as ([qn nss] & Hrun & [Hok _] & Hq & _).
  - exact Hdoc.
  - split; [intros q r; simpl; by rewrite lookup_empty|intros u p; done].
  - exists qn, nss. split; [done|]. intros e q He Hqn.
    destruct (Hq e q He Hqn) as [r Hr]. simpl in *.
    by rewrite (Hok _ _ Hr) in Hr.
Qed.

End documented_names.

(** ** Serialization *)

Lemma append_assoc (a b c : string) : (a +:+ b) +:+ c = a +:+ (b +:+ c).
Proof.
  induction a as [|x a IH]; [done|].
  change (String x ((a +:+ b) +:+ c) = String x (a +:+ (b +:+ c))).
  by rewrite IH.
Qed.

Lemma nodes_self e : e ∈ nodes e.
Proof. destruct e. by left. Qed.

Lemma nodes_child c e e' : c ∈ children e → e' ∈ nodes c → e' ∈ nodes e.
Proof.
  intros Hc He'. destruct e as [i t a tx tl cs]. simpl in *.
  right. apply list_elem_of_In, in_flat_map. exists c.
  split; by apply list_elem_of_In.
Qed.

Lemma serialize_items_written qnames items acc :
  (∀ k, k ∈ map fst items → qnames !! k = Some (written_name k)) →
  ofold (λ acc kv,
           (k <- qnames_getitem qnames kv.1 ;;
            Return (acc +:+ " " +:+ k +:+
                    String "=" (String dquote
                                  (_escape_attrib kv.2 +:+ chr dquote))))%out)
        items acc
  = Return (acc +:+ foldr (λ kv rest, written_attribute kv +:+ rest)
                          EmptyString items).
Proof.
  revert acc. induction items as [|[k v] items IH]; intros acc H.
  - simpl. f_equal. induction acc as [|c acc IHacc]; [done|].
    change (String c acc = String c (acc +:+ EmptyString)). by rewrite <- IHacc.
  - cbn [ofold]. unfold qnames_getitem at 1. cbn [fst snd].
    rewrite (H k) by (by left). cbn [obind].
    rewrite IH by (intros k' Hk'; apply H; by right).
    f_equal. cbn [foldr]. rewrite append_assoc. reflexivity.
Qed.

(** With a name map that writes every name of the tree as the table does,
    the serializer writes the tree as the table does. *)
Lemma serialize_xml_written qnames tree :
  (∀ e q, e ∈ nodes tree → q ∈ names e →
          qnames !! q = Some (written_name q)) →
  ∀ nss, _serialize_xml qnames tree nss
         = Return (written_element (xmlns_declarations nss) tree).
Proof.
  induction tree as [e IH] using Element_induction. intros Hq nss.
  pose proof (Hq e (tag e) (nodes_self e) ltac:(by left)) as Hqtag.
  pose proof (serialize_items_written qnames (attrib e) EmptyString) as Hitems.
  specialize (Hitems ltac:(intros k Hk; apply (Hq e);
                           [apply nodes_self|by right])).
  assert (Hinner :
    (fix go (cs : list Element) : outcome string :=
       match cs with
       | [] => Return EmptyString
       | c :: cs' =>
           (s <- _serialize_xml qnames c [] ;; rest <- go cs' ;;
            Return (s +:+ rest))%out
       end) (children e)
    = Return (foldr (λ c rest, written_element EmptyString c +:+ rest)
                    EmptyString (children e))).
  { assert (Hsub : ∀ c, c ∈ children e →
              ∀ e' q, e' ∈ nodes c → q ∈ names e' →
                      qnames !! q = Some (written_name q)).
    { intros c Hc e' q He'. apply Hq. by eapply nodes_child. }
    clear Hq Hqtag Hitems. induction IH as [|c cs Hc _ IHcs]; [done|].
    rewrite (Hc (Hsub c ltac:(by left)) []). cbn [obind].
    rewrite IHcs by (intros; eapply Hsub; [by right|done..]).
    reflexivity. }
  destruct e as [i t a tx tl cs]. cbn [tag attrib text tail children] in *.
  cbn [_serialize_xml tag attrib text tail children].
  unfold qnames_getitem at 1. rewrite Hqtag. cbn [obind].
  unfold serialize_items. rewrite Hitems. cbn [obind]. rewrite Hinner.
  cbn [obind written_element tag attrib text tail children].
  f_equal.
  destruct tx as [[|c0 tx]|], cs as [|c cs], tl as [[|c1 tl]|]; reflexivity.
Qed.

(** The declarations the serializer writes for the table turned round are
    the declarations of the table. *)
Lemma table_declarations_written :
  xmlns_declarations (flipped_namespaces namespaces) = table_declarations.
Proof. reflexivity. Qed.

(** Every binding of the table has its declaration among them. *)
Lemma table_declarations_complete prefix uri :
  dict_get namespaces prefix = Some uri →
  ∃ before after,
    table_declarations = before +:+ declaration prefix uri +:+ after.
Proof.
  intros H%dict_get_Some_In. unfold table_declarations.
  generalize dependent namespaces. intros table.
  induction table as [|[p u] table IH]; intros H; [done|].
  destruct H as [[= -> ->]|H].
  - exists EmptyString. eexists. reflexivity.
  - destruct (IH H) as (before & after & Heq).
    exists (declaration p u +:+ before), after.
    cbn [foldr fst snd]. by rewrite Heq, append_assoc.
Qed.

(** ** Soundness of the decidable form *)

Lemma rsplit_once_cases sep s :
  (contains sep s = false ∧ rsplit_once sep s = [s])
  ∨ ∃ a b, rsplit_once sep s = [a; b]
           ∧ s = a +:+ String sep b ∧ contains sep b = false.
Proof.
  induction s as [|c s IH]; simpl; [by left|].
  destruct IH as [[Hc ->]|(a & b & -> & -> & Hb)].
  - rewrite Hc, orb_false_r.
    destruct (Ascii.eqb_spec c sep) as [->|Hne]; [|by left].
    right. by exists EmptyString, s.
  - right. by exists (String c a), b.
Qed.

Lemma documented_nameb_sound q :
  documented_nameb q = true → documented_name q.
Proof.
  unfold documented_nameb. destruct q as [|c rest]; [by left|].
  destruct (Ascii.eqb_spec c lbrace) as [->|Hne]; [|left; congruence].
  destruct (rsplit_once_cases rbrace rest) as [[_ ->]|(uri & local & -> & -> & Hl)];
    [done|].
  intros [prefix [[-> _]|Ht]%prefix_of_cases]%bool_decide_eq_true; right.
  - right. by exists local.
  - left. by exists prefix, uri, local.
Qed.

Lemma documentedb_sound tree : documentedb tree = true → documented tree.
Proof.
  unfold documentedb, documented. rewrite forallb_forall.
  intros H e q He Hq. apply documented_nameb_sound.
  specialize (H e (proj1 (list_elem_of_In _ _) He)).
  rewrite forallb_forall in H. apply H. by apply list_elem_of_In.
Qed.

(** ** [ET.tostring] *)

Lemma ET_tostring_installed w r :
  installed w → documented (current (heap w) r) →
  ET_tostring r w = (Return (written_document (current (heap w) r)), w).
Proof.
  intros (Htable & Hxml & Hrep) Hdoc.
  destruct (namespaces_documented (ET_namespace_map w) Htable Hxml _ Hdoc)
    as (qnames & nss & Hns & Hall).
  unfold ET_tostring, bind, deref, gets, lift, ret.
  rewrite (replaced_spec _ Hrep), Hns.
  rewrite (serialize_xml_written qnames _ Hall).
  by rewrite table_declarations_written.
Qed.

(** Claim C9.  In a state where the namespace table is installed (as
    [DocxRedactor()] leaves it), for an open document whose tag and
    attribute names are all unqualified, in a namespace of the table, or in
    the namespace of [xml:]: [ET.tostring] on the root returns, changes
    nothing, and its result is exactly the document as the table writes it
    ([written_document]: every name under the prefix the table binds to its
    URI, the declarations of the table on the root element).  Every
    qualified name of the tree is written [prefix:local] with the prefix
    bound to its URI, and that prefix is none of the generated [ns0], [ns1],
    ...; and every binding of the table is read back by URI to its own
    prefix and has its [xmlns] declaration in the output. *)
Theorem namespace_fidelity w r tree :
  installed w →
  root w = Some r →
  tree = current (heap w) r →
  documented tree →
  ET_tostring r w = (Return (written_document tree), w)
  ∧ (∀ e q, e ∈ nodes tree → q ∈ names e →
       ((∀ rest, q ≠ String lbrace rest) ∧ written_name q = q)
       ∨ ∃ prefix uri local,
           q = qualified uri local
           ∧ prefix_of uri = Some prefix
           ∧ written_name q = prefix +:+ String colon local
           ∧ reserved_prefix prefix = false)
  ∧ (∀ prefix uri,
       dict_get namespaces prefix = Some uri →
       prefix_of uri = Some prefix
       ∧ ∃ before after,
           table_declarations
           = before +:+ declaration prefix uri +:+ after).
Proof.
  intros Hinst Hroot -> Hdoc. split; [|split].
  - by apply ET_tostring_installed.
  - intros e q He Hq.
    destruct (documented_name_cases q (Hdoc e q He Hq))
      as [?|(prefix & uri & local & -> & _ & Hp & Hw)]; [by left|].
    right. exists prefix, uri, local.
    split; [done|]. split; [done|]. split; [done|].
    by eapply prefix_of_not_generated.
  - intros prefix uri Ht. split; [by apply table_bound|].
    by apply table_declarations_complete.
Qed.

(* ================================================================== *)
(** * Archives, [open] and [save] *)
(* ================================================================== *)

(** ** Archives *)

Lemma filter_none {A} (P : A → Prop) `{∀ x, Decision (P x)} (l : list A) :
  (∀ x, x ∈ l → ¬ P x) → filter P l = [].
Proof.
  induction l as [|x l IH]; intros H'; [done|].
  rewrite filter_cons, decide_False by (apply H'; by left).
  apply IH. intros y Hy. apply H'. by right.
Qed.

Lemma name_to_info_member (l : list (ZipInfo * string)) m :
  NoDup (map (λ m, filename m.1) l) → m ∈ l →
  last (filter (λ m', String.eqb (filename m'.1) (filename m.1)) l) = Some m.
Proof.
  induction l as [|m0 l IH]; intros Hnd Hm; [by apply elem_of_nil in Hm|].
  simpl in Hnd. apply NoDup_cons in Hnd as [Hnotin Hnd].
  rewrite filter_cons.
  apply elem_of_cons in Hm as [->|Hm].
  - rewrite decide_True by (by rewrite String.eqb_refl).
    rewrite filter_none; [done|].
    intros x Hx Heq. apply Is_true_true, String.eqb_eq in Heq.
    apply Hnotin. rewrite <- Heq. apply list_elem_of_fmap. by exists x.
  - rewrite decide_False; [by apply IH|].
    intros Heq. apply Is_true_true, String.eqb_eq in Heq.
    apply Hnotin. rewrite Heq. apply list_elem_of_fmap. by exists m.
Qed.

Lemma unique_names_alt z :
  unique_names z → NoDup (map (λ m, filename m.1) (filelist z)).
Proof. unfold unique_names, infolist. by rewrite map_map. Qed.

Lemma name_to_info_unique z m :
  unique_names z → m ∈ filelist z → name_to_info z (filename m.1) = Some m.
Proof.
  intros Hu Hm. unfold name_to_info.
  by apply name_to_info_member; [apply unique_names_alt|].
Qed.

Lemma name_to_info_filename z name m :
  name_to_info z name = Some m → filename m.1 = name ∧ m ∈ filelist z.
Proof.
  unfold name_to_info. intros (l' & Hl)%last_Some.
  assert (Hin : m ∈ filter (λ m0, String.eqb (filename m0.1) name) (filelist z)).
  { rewrite Hl. apply elem_of_app. right. by left. }
  apply list_elem_of_filter in Hin as [Heq Hin].
  split; [|done]. by apply Is_true_true, String.eqb_eq in Heq.
Qed.

(** ** Members as [zipfile] writes them again *)

Lemma central_directory_record_twice zinfo :
  central_directory_record (central_directory_record zinfo)
  = central_directory_record zinfo.
Proof.
  unfold central_directory_record, _encodeFilenameFlags. cbn [filename flag_bits].
  f_equal. destruct (isascii (filename zinfo)); [done|].
  by rewrite <- N.lor_assoc, N.lor_diag.
Qed.

Lemma write_end_record_twice z :
  _write_end_record (_write_end_record z) = _write_end_record z.
Proof.
  unfold _write_end_record. cbn [filelist comment]. f_equal.
  rewrite map_map. apply map_ext. intros [i d]. cbn [fst snd].
  by rewrite central_directory_record_twice.
Qed.


Lemma rewritten_info_twice zinfo :
  rewritten_info (rewritten_info zinfo) = rewritten_info zinfo.
Proof.
  destruct zinfo as [name dt ct fb c e ea].
  unfold rewritten_info, central_directory_record, _encodeFilenameFlags,
    _open_to_write. cbn [filename flag_bits compress_type external_attr
                         date_time zi_comment extra].
  f_equal.
  destruct (N.eqb_spec ea 0) as [->|Hne]; [done|].
  by destruct (N.eqb_spec ea 0).
Qed.

(** A member that [zipfile] wrote before is kept as it is: the second
    [save] of a document changes no metadata. *)
Lemma rewritten_info_kept zinfo : kept_verbatim (rewritten_info zinfo).
Proof. apply rewritten_info_twice. Qed.

(** The loop of [update_zip] over the members of the original archive. *)
Lemma copy_loop z target (l : list (ZipInfo * string)) z_out :
  unique_names z → (∀ m, m ∈ l → m ∈ filelist z) →
  ofold (λ z_out item,
           if bool_decide (filename item ≠ target)
           then (payload <- read z (filename item) ;;
                 Return (writestr z_out item payload))%out
           else Return z_out)
        (map fst l) z_out
  = Return {| filelist := filelist z_out
                          ++ map (λ m, (_open_to_write m.1, m.2))
                                 (filter (λ m, filename m.1 ≠ target) l);
              comment := comment z_out |}.
Proof.
  intros Hu. revert z_out.
  induction l as [|m l IH]; intros z_out Hl; cbn [map ofold].
  - rewrite filter_nil. cbn [map]. rewrite app_nil_r. by destruct z_out.
  - rewrite filter_cons. case_bool_decide as Hne.
    + unfold read. rewrite (name_to_info_unique z m Hu) by (apply Hl; by left).
      cbn [obind]. rewrite IH by (intros; apply Hl; by right).
      rewrite decide_True by done. unfold writestr. cbn [filelist comment map].
      by rewrite <- app_assoc.
    + cbn [obind]. rewrite IH by (intros; apply Hl; by right).
      rewrite decide_False; [done|]. intros H. by apply H.
Qed.

Lemma set_files_set_files fs1 fs2 w :
  set_files fs1 (set_files fs2 w) = set_files fs1 w.
Proof. done. Qed.

Lemma mkstemp_run dir w :
  mkstemp dir w
  = (Return (fresh_string (os_path_join dir "tmp") (files w)),
     set_files (<[fresh_string (os_path_join dir "tmp") (files w)
                  := OtherFile EmptyString]> (files w)) w).
Proof. done. Qed.

Lemma ZipFile_read_run name w z :
  files w !! name = Some (ZipArchive z) → ZipFile_read name w = (Return z, w).
Proof. intros H. unfold ZipFile_read, bind, gets. by rewrite H. Qed.

Lemma os_remove_run name w f :
  files w !! name = Some f →
  os_remove name w = (Return tt, set_files (delete name (files w)) w).
Proof. intros H. unfold os_remove, bind, gets. by rewrite H. Qed.

Lemma os_rename_run src dst w f :
  files w !! src = Some f →
  os_rename src dst w
  = (Return tt, set_files (<[dst := f]> (delete src (files w))) w).
Proof. intros H. unfold os_rename, bind, gets. by rewrite H. Qed.

Lemma files_set_files fs w : files (set_files fs w) = fs.
Proof. done. Qed.

Lemma update_zip_spec w zipname zip_info data z :
  files w !! zipname = Some (ZipArchive z) →
  unique_names z →
  update_zip zipname zip_info data w
  = (Return (_open_to_write zip_info),
     set_files (<[zipname := ZipArchive (rewritten z zip_info data)]> (files w)) w).
Proof.
  intros Hf Hu.
  set (tmp := fresh_string (os_path_join (os_path_dirname zipname) "tmp") (files w)).
  assert (Htmp : files w !! tmp = None) by apply fresh_string_fresh.
  assert (Hne : tmp ≠ zipname) by congruence.
  unfold update_zip.
  rewrite (bind_Return _ _ _ _ _ (mkstemp_run _ _)). fold tmp.
  erewrite bind_Return; cycle 1.
  { apply ZipFile_read_run. rewrite files_set_files.
    rewrite lookup_insert_ne by done. exact Hf. }
  erewrite bind_Return; cycle 1.
  { unfold lift, infolist.
    rewrite (copy_loop z (filename zip_info) (filelist z)) by done.
    reflexivity. }
  erewrite bind_Return; [|reflexivity].
  erewrite bind_Return; cycle 1.
  { apply os_remove_run with (f := ZipArchive z).
    unfold ZipFile_close, modify. rewrite !files_set_files.
    rewrite lookup_insert_ne by done. rewrite lookup_insert_ne by done.
    exact Hf. }
  erewrite bind_Return; cycle 1.
  { apply os_rename_run. rewrite !files_set_files.
    rewrite lookup_delete_ne by done. apply lookup_insert_eq. }
  erewrite bind_Return; cycle 1.
  { apply ZipFile_read_run. rewrite !files_set_files. apply lookup_insert_eq. }
  erewrite bind_Return; [|reflexivity].
  unfold ZipFile_close, modify, ret. f_equal.
  rewrite !files_set_files, !set_files_set_files. f_equal.
  apply map_eq. intros k.
  destruct (decide (k = zipname)) as [->|Hk].
  { rewrite !lookup_insert_eq. do 2 f_equal.
    unfold rewritten, _write_end_record, writestr.
    cbn [filelist comment app]. rewrite map_app, !map_map.
    cbn [map fst snd]. apply (f_equal (λ l, mkZipFile l (comment z))).
    apply (f_equal (λ l, l ++ [(rewritten_info zip_info, data)])).
    apply map_ext. intros [i d]. cbn [fst snd].
    by rewrite central_directory_record_twice. }
  rewrite !(lookup_insert_ne _ zipname) by done.
  destruct (decide (k = tmp)) as [->|Hk'].
  { by rewrite lookup_delete_eq, Htmp. }
  rewrite lookup_delete_ne by done. rewrite lookup_delete_ne by done.
  rewrite !lookup_insert_ne by done. done.
Qed.

(** ** [save] *)

Lemma ET_tostring_world r w : (ET_tostring r w).2 = w.
Proof.
  unfold ET_tostring, bind, deref, gets, lift, ret.
  destruct (ET_namespaces w (ET_namespace_map w) (current (heap w) r))
    as [[qnames nss]| |]; [|done..].
  by destruct (_serialize_xml qnames (current (heap w) r) nss).
Qed.

Lemma ET_tostring_run r w data :
  (ET_tostring r w).1 = Return data → ET_tostring r w = (Return data, w).
Proof.
  intros H. rewrite <- (ET_tostring_world r w) at 2. rewrite <- H.
  by destruct (ET_tostring r w).
Qed.

Lemma save_run w p info r :
  is_open w = true → path w = Some p → doc_info w = Some info →
  root w = Some r →
  save w = match ET_tostring r w with
           | (Return data, _) =>
               bind (update_zip p info data)
                    (λ doc_info, modify (set_doc_info (Some doc_info))) w
           | (Raise e, _) => (Raise e, w)
           | (Diverge, _) => (Diverge, w)
           end.
Proof.
  intros Ho Hp Hi Hr. unfold save, check_open.
  unfold bind at 1. unfold bind at 1. unfold gets at 1. rewrite Ho.
  unfold ret at 1. unfold bind at 1. unfold gets at 1. rewrite Hr.
  unfold bind at 1.
  pose proof (ET_tostring_world r w) as Hw.
  destruct (ET_tostring r w) as [[data| |] w']; simpl in Hw; subst w'; [|done..].
  unfold bind, gets. by rewrite Hp, Hi.
Qed.

(** [save] on an archive with unique names. *)
Lemma save_spec w p info r z data :
  is_open w = true → path w = Some p → doc_info w = Some info →
  root w = Some r →
  files w !! p = Some (ZipArchive z) → unique_names z →
  (ET_tostring r w).1 = Return data →
  save w
  = (Return tt,
     set_doc_info (Some (_open_to_write info))
       (set_files (<[p := ZipArchive (rewritten z info data)]> (files w)) w)).
Proof.
  intros Ho Hp Hi Hr Hf Hu Hd.
  rewrite (save_run w p info r Ho Hp Hi Hr), (ET_tostring_run _ _ _ Hd).
  erewrite bind_Return; [|by apply update_zip_spec]. reflexivity.
Qed.


(** ** [open] *)

Lemma open_run w p z info payload tree :
  files w !! p = Some (ZipArchive z) →
  name_to_info z "word/document.xml" = Some (info, payload) →
  XMLParser w payload = Return tree →
  open p w = (Return tt, opened_world w p info tree).
Proof.
  intros Hf Hn Hparse.
  destruct (name_to_info_filename _ _ _ Hn) as [Hname _]. simpl in Hname.
  unfold open.
  erewrite bind_Return; cycle 1.
  { unfold os_path_isfile, gets. rewrite Hf. reflexivity. }
  rewrite bool_decide_eq_true_2 by eauto.
  erewrite bind_Return; [|reflexivity].
  erewrite bind_Return; [|reflexivity].
  erewrite bind_Return; [|by apply ZipFile_read_run].
  erewrite bind_Return; cycle 1.
  { unfold lift, getinfo. rewrite Hn. reflexivity. }
  erewrite bind_Return; [|reflexivity].
  erewrite bind_Return; cycle 1.
  { unfold lift, read. simpl. rewrite Hname, Hn. reflexivity. }
  erewrite bind_Return; cycle 1.
  { unfold ET_fromstring. erewrite bind_Return; [|reflexivity].
    erewrite bind_Return; cycle 1.
    { unfold lift. simpl. rewrite Hparse. reflexivity. }
    erewrite bind_Return; reflexivity. }
  reflexivity.
Qed.

(** Every way [open] can end. *)
Lemma open_cases w p :
  open p w
  = match files w !! p with
    | None => (Raise (mk_exception Exception "File '%s' does not exist"), w)
    | Some (OtherFile _) =>
        (Raise (mk_exception BadZipFile "File is not a zip file"),
         set_path (Some p) w)
    | Some (ZipArchive z) =>
        match name_to_info z "word/document.xml" with
        | None =>
            (Raise (mk_exception KeyError
                      (repr ("There is no item named "
                             +:+ repr "word/document.xml"
                             +:+ " in the archive"))),
             set_path (Some p) w)
        | Some (info, payload) =>
            match XMLParser w payload with
            | Return tree => (Return tt, opened_world w p info tree)
            | Raise e =>
                (Raise e, set_doc_info (Some info) (set_path (Some p) w))
            | Diverge =>
                (Diverge, set_doc_info (Some info) (set_path (Some p) w))
            end
        end
    end.
Proof.
  destruct (files w !! p) as [[z|c]|] eqn:Hf; cycle 1.
  { unfold open.
    erewrite bind_Return; cycle 1.
    { unfold os_path_isfile, gets. rewrite Hf. reflexivity. }
    rewrite bool_decide_eq_true_2 by eauto.
    erewrite bind_Return; [|reflexivity].
    erewrite bind_Return; [|reflexivity].
    erewrite bind_Raise; [reflexivity|].
    unfold ZipFile_read, bind, gets, modify, set_path, raise. simpl.
    rewrite Hf. reflexivity. }
  { unfold open.
    erewrite bind_Return; cycle 1.
    { unfold os_path_isfile, gets. rewrite Hf. reflexivity. }
    rewrite bool_decide_eq_false_2 by (by intros [? ?]).
    erewrite bind_Raise; reflexivity. }
  destruct (name_to_info z "word/document.xml") as [[info payload]|] eqn:Hn;
    cycle 1.
  { unfold open.
    erewrite bind_Return; cycle 1.
    { unfold os_path_isfile, gets. rewrite Hf. reflexivity. }
    rewrite bool_decide_eq_true_2 by eauto.
    erewrite bind_Return; [|reflexivity].
    erewrite bind_Return; [|reflexivity].
    erewrite bind_Return; [|by apply ZipFile_read_run].
    erewrite bind_Raise; [reflexivity|].
    unfold lift, getinfo. rewrite Hn. reflexivity. }
  destruct (XMLParser w payload) as [tree| |] eqn:Hparse.
  - by apply (open_run w p z info payload tree).
  - destruct (name_to_info_filename _ _ _ Hn) as [Hname _]. simpl in Hname.
    unfold open.
    erewrite bind_Return; cycle 1.
    { unfold os_path_isfile, gets. rewrite Hf. reflexivity. }
    rewrite bool_decide_eq_true_2 by eauto.
    erewrite bind_Return; [|reflexivity].
    erewrite bind_Return; [|reflexivity].
    erewrite bind_Return; [|by apply ZipFile_read_run].
    erewrite bind_Return; cycle 1.
    { unfold lift, getinfo. rewrite Hn. reflexivity. }
    erewrite bind_Return; [|reflexivity].
    erewrite bind_Return; cycle 1.
    { unfold lift, read. simpl. rewrite Hname, Hn. reflexivity. }
    erewrite bind_Raise; [reflexivity|].
    unfold ET_fromstring. erewrite bind_Return; [|reflexivity].
    erewrite bind_Raise; [reflexivity|].
    unfold lift. simpl. rewrite Hparse. reflexivity.
  - destruct (name_to_info_filename _ _ _ Hn) as [Hname _]. simpl in Hname.
    unfold open.
    erewrite bind_Return; cycle 1.
    { unfold os_path_isfile, gets. rewrite Hf. reflexivity. }
    rewrite bool_decide_eq_true_2 by eauto.
    erewrite bind_Return; [|reflexivity].
    erewrite bind_Return; [|reflexivity].
    erewrite bind_Return; [|by apply ZipFile_read_run].
    erewrite bind_Return; cycle 1.
    { unfold lift, getinfo. rewrite Hn. reflexivity. }
    erewrite bind_Return; [|reflexivity].
    erewrite bind_Return; cycle 1.
    { unfold lift, read. simpl. rewrite Hname, Hn. reflexivity. }
    unfold bind at 1. unfold ET_fromstring.
    erewrite bind_Return; [|reflexivity].
    unfold bind at 1. unfold lift at 1. simpl.
    rewrite Hparse. reflexivity.
Qed.

Lemma open_inv w p w1 :
  open p w = (Return tt, w1) →
  ∃ z info payload tree,
    files w !! p = Some (ZipArchive z)
    ∧ name_to_info z "word/document.xml" = Some (info, payload)
    ∧ XMLParser w payload = Return tree
    ∧ w1 = opened_world w p info tree.
Proof.
  rewrite open_cases.
  destruct (files w !! p) as [[z|c]|]; [|done..].
  destruct (name_to_info z "word/document.xml") as [[info payload]|] eqn:Hn;
    [|done].
  destruct (XMLParser w payload) as [tree| |] eqn:Hparse; [|done..].
  intros [= <-]. by exists z, info, payload, tree.
Qed.

(** ** Identities *)

(** The parser numbers the elements of a tree consecutively in document
    order, so no two elements of a parsed tree share an identity. *)
Lemma allocate_ids e :
  ∀ n, (allocate n e).2 = n + List.length (nodes e)
       ∧ ids (allocate n e).1 = seq n (List.length (nodes e)).
Proof.
  induction e as [e IH] using Element_induction. intros n.
  destruct e as [i t a tx tl cs]. simpl in IH.
  unfold ids. simpl.
  match goal with |- context [?f cs (S n)] => set (step := f) end.
  assert (∀ m, (step cs m).2 = m + List.length (flat_map nodes cs)
               ∧ map oid (flat_map nodes (step cs m).1)
                 = seq m (List.length (flat_map nodes cs))) as Hstep.
  { clear -IH. induction IH as [|c cs Hc _ IHcs]; intros m; simpl; [by rewrite Nat.add_0_r|].
    destruct (Hc m) as [Hnext Hids]. unfold ids in Hids.
    destruct (allocate m c) as [c' m'] eqn:Hal. simpl in *.
    destruct (IHcs m') as [Hnext' Hids'].
    destruct (step cs m') as [cs' m''] eqn:Hst. simpl in *.
    rewrite length_app, map_app, seq_app, Hids, Hids', Hnext', Hnext.
    split; [lia|done]. }
  destruct (Hstep (S n)) as [Hnext Hids].
  destruct (step cs (S n)) as [cs' n'] eqn:Hst. simpl in *.
  rewrite Hids, Hnext. split; [lia|done].
Qed.

Lemma allocate_NoDup n e : NoDup (ids (allocate n e).1).
Proof. rewrite (proj2 (allocate_ids e n)). apply NoDup_seq. Qed.

(** A tree on which nothing has been changed reads as it was built. *)
Lemma current_empty e : current empty_heap e = e.
Proof.
  induction e as [e IH] using Element_induction.
  destruct e as [i t a tx tl cs]. simpl in *. f_equal.
  induction IH as [|c cs Hc _ IHcs]; [done|]. simpl.
  rewrite decide_False by set_solver. by rewrite Hc, IHcs.
Qed.

(** [open] leaves a tree whose elements have distinct identities and on
    which nothing has been changed yet. *)
Lemma open_identities w p w1 :
  open p w = (Return tt, w1) →
  ∃ r, root w1 = Some r ∧ NoDup (ids r) ∧ heap w1 = empty_heap
       ∧ document w1 = Some r.
Proof.
  intros (z & info & payload & tree & _ & _ & _ & ->)%open_inv.
  exists (allocate 0 tree).1. split; [done|]. split; [apply allocate_NoDup|].
  split; [done|]. unfold document. simpl. by rewrite current_empty.
Qed.

(** ** [save] under the namespace table *)

(** [open] touches neither the registry nor the replaced method, however
    it ends. *)
Lemma open_keeps_installed w p : installed w → installed (open p w).2.
Proof.
  intros H. rewrite open_cases.
  destruct (files w !! p) as [[z|c]|]; [|exact H..].
  destruct (name_to_info z "word/document.xml") as [[info payload]|];
    [|exact H].
  destruct (XMLParser w payload); exact H.
Qed.

Lemma open_installed w p w1 :
  open p w = (Return tt, w1) → installed w → installed w1.
Proof.
  intros Hopen H. apply (open_keeps_installed w p) in H.
  by rewrite Hopen in H.
Qed.

(** The sample process has the table installed, whatever its document. *)
Lemma opened_installed document_xml : installed (opened document_xml).
Proof.
  unfold opened.
  erewrite bind_Return; [|by apply init_spec].
  apply open_keeps_installed.
  split; [|split]; cbn [ET_namespace_map ET_namespaces fresh_process].
  - apply table_registered.
  - reflexivity.
  - apply replaced_once.
Qed.

(** On an open document with documented names [save] returns, and what it
    stores under [word/document.xml] is the document as the table writes
    it. *)
Lemma save_installed w p info r z :
  installed w →
  is_open w = true → path w = Some p → doc_info w = Some info →
  root w = Some r →
  files w !! p = Some (ZipArchive z) → unique_names z →
  documented (current (heap w) r) →
  save w
  = (Return tt,
     set_doc_info (Some (_open_to_write info))
       (set_files
          (<[p := ZipArchive
                    (rewritten z info
                       (written_document (current (heap w) r)))]> (files w))
          w)).
Proof.
  intros Hinst Ho Hp Hi Hr Hf Hu Hdoc.
  apply (save_spec w p info r); try done.
  by rewrite (ET_tostring_installed w r Hinst Hdoc).
Qed.

(** ** [open] followed by [save] *)


(* ================================================================== *)
(** * Redaction *)
(* ================================================================== *)

(** ** The parent walk *)

Lemma parent_walk_S fuel pm e :
  parent_walk (S fuel) pm e
  = match pm !! oid e with
    | None => Return None
    | Some p =>
        if String.eqb (tag p) W_R then Return (Some p)
        else if String.eqb (tag p) W_P then Return (Some p)
        else parent_walk fuel pm p
    end.
Proof.
  cbn [parent_walk]. destruct (pm !! oid e) as [p|]; [|done].
  rewrite expand_w_r. cbn [obind].
  destruct (String.eqb (tag p) W_R); [done|].
  rewrite expand_w_p. cbn [obind]. done.
Qed.

Lemma walk_parent_walk pm n e x :
  walk pm n e x → ∀ fuel, n < fuel → parent_walk fuel pm e = Return x.
Proof.
  induction 1 as [e He|e p He Ht|n e p x He Hr Hp _ IH]; intros fuel Hf;
    (destruct fuel as [|fuel]; [lia|]); rewrite parent_walk_S, He.
  - done.
  - destruct Ht as [Ht|Ht]; rewrite Ht, String.eqb_refl; [done|].
    by destruct (String.eqb W_P W_R).
  - apply String.eqb_neq in Hr, Hp. rewrite Hr, Hp. apply IH. lia.
Qed.

Lemma parent_walk_walk fuel pm e x :
  parent_walk fuel pm e = Return x → ∃ n, n < fuel ∧ walk pm n e x.
Proof.
  revert e. induction fuel as [|fuel IH]; intros e; [done|].
  rewrite parent_walk_S. destruct (pm !! oid e) as [p|] eqn:He.
  - destruct (String.eqb_spec (tag p) W_R) as [Hr|Hr].
    { intros [= <-]. exists 0. split; [lia|]. apply walk_found; auto. }
    destruct (String.eqb_spec (tag p) W_P) as [Hp|Hp].
    { intros [= <-]. exists 0. split; [lia|]. apply walk_found; auto. }
    intros (n & Hn & Hw)%IH. exists (S n). split; [lia|].
    by apply walk_up with p.
  - intros [= <-]. exists 0. split; [lia|]. by apply walk_end.
Qed.

(** The walk raises nothing. *)
Lemma parent_walk_no_raise fuel pm e ex : parent_walk fuel pm e ≠ Raise ex.
Proof.
  revert e. induction fuel as [|fuel IH]; intros e; [done|].
  rewrite parent_walk_S. destruct (pm !! oid e) as [p|]; [|done].
  destruct (String.eqb (tag p) W_R); [done|].
  destruct (String.eqb (tag p) W_P); [done|]. apply IH.
Qed.

(** The length of the walk depends on the identity of its first element
    only. *)
Lemma walk_det pm n e x :
  walk pm n e x → ∀ m e' y, walk pm m e' y → oid e = oid e' → n = m.
Proof.
  induction 1 as [e He|e p He Ht|n e p x He Hr Hp _ IH]; intros m e' y Hm Heq.
  - destruct Hm as [e' He'|e' p' He' _|m e' p' y He' _ _ _]; [done|done|congruence].
  - destruct Hm as [e' He'|e' p' He' _|m e' p' y He' Hr' Hp' _]; [done|done|].
    assert (p' = p) as -> by congruence. by destruct Ht.
  - destruct Hm as [e' He'|e' p' He' Ht'|m e' p' y He' _ _ Hm]; [congruence| |].
    + assert (p' = p) as -> by congruence. by destruct Ht'.
    + f_equal. apply (IH m p' y Hm). congruence.
Qed.

Lemma walk_delete pm n e x k :
  walk pm n e x →
  (∀ m e' y, m ≤ n → walk pm m e' y → oid e' ≠ k) →
  walk (delete k pm) n e x.
Proof.
  induction 1 as [e He|e p He Ht|n e p x He Hr Hp Hd IH]; intros Hk.
  - apply walk_end. rewrite lookup_delete. by case_decide.
  - apply walk_found; [|done]. rewrite lookup_delete_ne; [done|].
    intros Heq. apply (Hk 0 e (Some p)); [lia| |done]. by apply walk_found.
  - apply walk_up with p; [|done..|].
    + rewrite lookup_delete_ne; [done|].
      intros Heq. apply (Hk (S n) e x); [lia| |done]. by eapply walk_up.
    + apply IH. intros m e' y Hm. apply Hk. lia.
Qed.

(** A walk that ends takes each key of the parent index at most once. *)
Lemma walk_bound pm n e x : walk pm n e x → n ≤ size pm.
Proof.
  revert pm e. induction n as [|n IH]; intros pm e Hd; [lia|].
  inversion Hd as [| |n' e' p x' He Hr Hp Hd']; subst.
  assert (Hdel : walk (delete (oid e) pm) n p x).
  { apply walk_delete; [done|]. intros m e' y Hm Hd'' Heq.
    pose proof (walk_det _ _ _ _ Hd _ _ _ Hd'' (eq_sym Heq)). lia. }
  apply IH in Hdel.
  assert (size pm = S (size (delete (oid e) pm))); [|lia].
  rewrite <- (insert_delete_id pm (oid e) p He) at 1.
  rewrite map_size_insert_None; [done|]. apply lookup_delete_eq.
Qed.

(** The fuel of [get_run_or_paragraph_for_highlight] is enough: a walk that
    comes back with some fuel comes back with one more iteration than the
    parent index has entries, so [Diverge] stands for a loop that does not
    end. *)
Lemma parent_walk_enough fuel pm e x :
  parent_walk fuel pm e = Return x →
  parent_walk (S (size pm)) pm e = Return x.
Proof.
  intros (n & _ & Hw)%parent_walk_walk.
  apply (walk_parent_walk _ _ _ _ Hw). pose proof (walk_bound _ _ _ _ Hw). lia.
Qed.

Lemma parent_walk_diverge pm e :
  parent_walk (S (size pm)) pm e = Diverge →
  ∀ fuel, parent_walk fuel pm e = Diverge.
Proof.
  intros Hd fuel. destruct (parent_walk fuel pm e) as [x|ex|] eqn:Hf; [| |done].
  - apply parent_walk_enough in Hf. congruence.
  - by apply parent_walk_no_raise in Hf.
Qed.

Lemma get_run_or_paragraph_run w pm highlight :
  parent_map w = Some pm →
  get_run_or_paragraph_for_highlight highlight w
  = (parent_walk (S (size pm)) pm highlight, w).
Proof.
  intros Hpm. unfold get_run_or_paragraph_for_highlight, bind, gets.
  by rewrite Hpm.
Qed.

Lemma for_each_cons {A} (x : A) xs (body : A → Py unit) :
  for_each (x :: xs) body = bind (body x) (λ _, for_each xs body).
Proof. done. Qed.

(** Claim C7.  When the walk up the parent links from a highlight marker
    comes to an element without an entry in the parent index and has met no
    run and no paragraph, [get_run_or_paragraph_for_highlight] returns
    [None], raises nothing and changes nothing; and the loop of [redact], at
    that marker, prints one diagnostic line and goes on with the remaining
    markers from a state that differs in the printed line only. *)
Theorem unresolved_highlight_skipped w pm n highlight :
  parent_map w = Some pm →
  dead_end pm n highlight →
  get_run_or_paragraph_for_highlight highlight w = (Return None, w)
  ∧ ∀ replacement rest,
      for_each (highlight :: rest) (redact_highlight replacement) w
      = for_each rest (redact_highlight replacement)
          (set_stdout (stdout w ++ [skip_message]) w).
Proof.
  intros Hpm Hd.
  assert (Hrun : get_run_or_paragraph_for_highlight highlight w = (Return None, w)).
  { rewrite (get_run_or_paragraph_run _ _ _ Hpm).
    rewrite (walk_parent_walk _ _ _ _ Hd); [done|].
    pose proof (walk_bound _ _ _ _ Hd). lia. }
  split; [done|]. intros replacement rest.
  rewrite for_each_cons. unfold redact_highlight at 1.
  erewrite bind_Return; [reflexivity|].
  erewrite bind_Return; [|exact Hrun]. reflexivity.
Qed.

(** ** The tree behind a reference *)

Lemma current_oid h e : oid (current h e) = oid e.
Proof. by destruct e. Qed.
Lemma current_tag h e : tag (current h e) = tag e.
Proof. by destruct e. Qed.
Lemma current_attrib h e : attrib (current h e) = attrib e.
Proof. by destruct e. Qed.
Lemma current_text h e : text (current h e) = text_of h e.
Proof. by destruct e. Qed.

Lemma flat_map_flat_map {A B C} (f : A → list B) (g : B → list C) l :
  flat_map g (flat_map f l) = flat_map (λ x, flat_map g (f x)) l.
Proof.
  induction l as [|x l IH]; simpl; [done|]. by rewrite flat_map_app, IH.
Qed.

Lemma map_flat_map {A B C} (f : A → list B) (g : B → C) l :
  map g (flat_map f l) = flat_map (λ x, map g (f x)) l.
Proof.
  induction l as [|x l IH]; simpl; [done|]. by rewrite map_app, IH.
Qed.

Lemma nodes_current h e :
  nodes (current h e) = map (current h) (live (detached h) e).
Proof.
  induction e as [e IH] using Element_induction.
  destruct e as [i t a tx tl cs]. simpl in *. f_equal.
  rewrite flat_map_flat_map, map_flat_map.
  apply flat_map_ext_Forall. eapply Forall_impl; [exact IH|].
  intros c Hc. simpl. destruct (decide (oid c ∈ detached h)); simpl; [done|].
  by rewrite app_nil_r.
Qed.

Lemma elem_of_flat_map {A B} (f : A → list B) (l : list A) y :
  y ∈ flat_map f l ↔ ∃ x, x ∈ l ∧ y ∈ f x.
Proof.
  rewrite list_elem_of_In, in_flat_map. split.
  - intros (x & Hx & Hy). exists x. by rewrite !list_elem_of_In.
  - intros (x & Hx & Hy). exists x. by rewrite <- !list_elem_of_In.
Qed.

Lemma live_cases d e n :
  n ∈ live d e ↔
  n = e ∨ ∃ c, c ∈ children e ∧ (oid c ∉ d) ∧ n ∈ live d c.
Proof.
  destruct e as [i t a tx tl cs]. simpl. rewrite elem_of_cons, elem_of_flat_map.
  split; (intros [->|(c & Hc & Hn)]; [by left|right; exists c]).
  - destruct (decide (oid c ∈ d)); [by apply elem_of_nil in Hn|done].
  - destruct Hn as [Hd Hn]. split; [done|]. by rewrite decide_False.
Qed.

Lemma nodes_cases e n :
  n ∈ nodes e ↔ n = e ∨ ∃ c, c ∈ children e ∧ n ∈ nodes c.
Proof.
  destruct e as [i t a tx tl cs]. simpl. rewrite elem_of_cons, elem_of_flat_map.
  done.
Qed.

Lemma live_mono d d' e n : d ⊆ d' → n ∈ live d' e → n ∈ live d e.
Proof.
  intros Hd. induction e as [e IH] using Element_induction.
  rewrite !live_cases. intros [->|(c & Hc & Hn & Hl)]; [by left|].
  right. exists c. split; [done|]. split; [set_solver|].
  rewrite Forall_forall in IH. by apply IH.
Qed.

Lemma live_nodes d e n : n ∈ live d e → n ∈ nodes e.
Proof.
  induction e as [e IH] using Element_induction.
  rewrite live_cases, nodes_cases. intros [->|(c & Hc & Hn & Hl)]; [by left|].
  right. exists c. split; [done|]. rewrite Forall_forall in IH. by apply IH.
Qed.

Lemma live_attached d e n : n ∈ live d e → n = e ∨ oid n ∉ d.
Proof.
  induction e as [e IH] using Element_induction.
  rewrite live_cases. intros [->|(c & Hc & Hn & Hl)]; [by left|].
  right. rewrite Forall_forall in IH. destruct (IH c Hc Hl) as [->|?]; done.
Qed.

Lemma nodes_trans e n m : n ∈ nodes e → m ∈ nodes n → m ∈ nodes e.
Proof.
  induction e as [e IH] using Element_induction.
  rewrite (nodes_cases e n), (nodes_cases e m).
  intros [->|(c & Hc & Hn)] Hm; [by apply nodes_cases in Hm|].
  right. exists c. split; [done|]. rewrite Forall_forall in IH. by apply IH.
Qed.

Lemma live_ids d e n : n ∈ live d e → oid n ∈ ids e.
Proof.
  intros H%live_nodes. unfold ids. apply list_elem_of_fmap. by exists n.
Qed.

Lemma current_ext h h' e :
  (∀ i, i ∈ ids e →
        texts h' !! i = texts h !! i ∧ (i ∈ detached h' ↔ i ∈ detached h)) →
  current h' e = current h e.
Proof.
  induction e as [e IH] using Element_induction. intros Hi.
  assert (Hself : oid e ∈ ids e).
  { unfold ids. apply list_elem_of_fmap. exists e. split; [done|apply nodes_self]. }
  assert (Hsub : ∀ c, c ∈ children e → ∀ i, i ∈ ids c → i ∈ ids e).
  { intros c Hc i (n & -> & Hn)%list_elem_of_fmap. unfold ids.
    apply list_elem_of_fmap. exists n. split; [done|]. by eapply nodes_child. }
  destruct e as [i t a tx tl cs]. simpl in *.
  destruct (Hi i Hself) as [-> _]. f_equal.
  apply flat_map_ext_Forall. rewrite Forall_forall in IH |- *.
  intros c Hc. assert (Hc' : oid c ∈ ids c).
  { unfold ids. apply list_elem_of_fmap. exists c. split; [done|apply nodes_self]. }
  destruct (Hi (oid c) (Hsub c Hc _ Hc')) as [_ Hd].
  destruct (decide (oid c ∈ detached h')), (decide (oid c ∈ detached h));
    [done|tauto|tauto|].
  f_equal. apply IH; [done|]. intros j Hj. apply Hi. by eapply Hsub.
Qed.

(** ** Steps of the heap *)

Lemma redaction_step_refl R h : redaction_step R h h.
Proof. split; [done|by left]. Qed.

Lemma redaction_step_trans R h1 h2 h3 :
  redaction_step R h1 h2 → redaction_step R h2 h3 → redaction_step R h1 h3.
Proof.
  intros [Hd1 Ht1] [Hd2 Ht2]. split; [set_solver|].
  intros i. destruct (Ht2 i) as [H3|H3]; rewrite H3; [apply Ht1|by right].
Qed.

Lemma confined_refl (S : nat → Prop) h : confined S h h.
Proof. by intros i _. Qed.

Lemma confined_trans (S : nat → Prop) h1 h2 h3 :
  confined S h1 h2 → confined S h2 h3 → confined S h1 h3.
Proof.
  intros H1 H2 i Hi. destruct (H1 i Hi) as [Ht1 Hd1].
  destruct (H2 i Hi) as [Ht2 Hd2]. split; [congruence|tauto].
Qed.

Lemma confined_weaken (S S' : nat → Prop) h h' :
  (∀ i, S i → S' i) → confined S h h' → confined S' h h'.
Proof. intros HS H i Hi. apply H. intros HSi. by apply Hi, HS. Qed.

Lemma redacted_stable R h h' K :
  redacted R h K → redaction_step R h h' → redacted R h' K.
Proof.
  unfold redacted. rewrite !nodes_current.
  intros (H1 & H2 & H3) [Hd Ht].
  assert (Hback : ∀ n', n' ∈ map (current h') (live (detached h') K) →
            ∃ n, n ∈ live (detached h) K ∧ n' = current h' n).
  { intros n' (n & -> & Hn)%list_elem_of_fmap. exists n.
    split; [by eapply live_mono|done]. }
  split; [|split].
  - intros HK n' (n & Hn & ->)%Hback. rewrite current_tag.
    rewrite <- (current_tag h). apply H1; [done|].
    apply list_elem_of_fmap. by exists n.
  - intros HK n' (n & Hn & ->)%Hback. rewrite current_tag.
    rewrite <- (current_tag h). apply H2; [done|].
    apply list_elem_of_fmap. by exists n.
  - intros n' (n & Hn & ->)%Hback. rewrite current_tag, current_text.
    intros Htag.
    assert (Hold : text_of h n = Some R).
    { rewrite <- current_text. apply H3; [|by rewrite current_tag].
      apply list_elem_of_fmap. by exists n. }
    unfold text_of in *. destruct (Ht (oid n)) as [Hn'|Hn']; by rewrite Hn'.
Qed.

(** ** The loops of [replace_text_in_run_or_paragraph] *)

Lemma replace_text_unfold elem text :
  replace_text_in_run_or_paragraph elem text
  = ((if String.eqb (tag elem) W_R then strip elem W_RPR else ret tt) ;;;
     (if String.eqb (tag elem) W_P then strip elem W_PPR else ret tt) ;;;
     overwrite elem text)%py.
Proof. reflexivity. Qed.

Lemma set_heap_id w : set_heap (heap w) w = w.
Proof. by destruct w. Qed.

Lemma set_heap_set_heap h1 h2 w : set_heap h1 (set_heap h2 w) = set_heap h1 w.
Proof. done. Qed.

Lemma bind_inv {A B} (m : Py A) (k : A → Py B) w b w'' :
  bind m k w = (Return b, w'') →
  ∃ a w', m w = (Return a, w') ∧ k a w' = (Return b, w'').
Proof.
  unfold bind. destruct (m w) as [[a| |] w']; [|done..]. eauto.
Qed.

Lemma remove_inv elem sub w w' :
  remove elem sub w = (Return tt, w') →
  w' = set_heap {| texts := texts (heap w);
                   detached := {[oid sub]} ∪ detached (heap w) |} w.
Proof.
  unfold remove, bind, gets, lift, modify, Element_remove.
  case_bool_decide; [|done]. by intros [= <-].
Qed.

Lemma for_each_remove_inv elem subs w w' :
  for_each subs (λ sub, remove elem sub) w = (Return tt, w') →
  ∃ h', w' = set_heap h' w
        ∧ texts h' = texts (heap w)
        ∧ ∀ i, i ∈ detached h' ↔ i ∈ detached (heap w) ∨ i ∈ map oid subs.
Proof.
  revert w. induction subs as [|sub subs IH]; intros w.
  - intros [= <-]. exists (heap w). rewrite set_heap_id.
    split; [done|]. split; [done|]. intros i. simpl. set_solver.
  - rewrite for_each_cons. intros ([] & w1 & H1 & H2)%bind_inv.
    apply remove_inv in H1. subst w1.
    destruct (IH _ H2) as (h' & -> & Ht & Hd). exists h'.
    rewrite set_heap_set_heap. split; [done|]. split; [done|].
    intros i. rewrite Hd. simpl. set_solver.
Qed.

Lemma for_each_assign ts text w :
  for_each ts (λ t, assign_text t text) w
  = (Return tt,
     set_heap {| texts := foldl (λ m t, <[oid t := text]> m)
                                (texts (heap w)) ts;
                 detached := detached (heap w) |} w).
Proof.
  revert w. induction ts as [|t ts IH]; intros w.
  - simpl. unfold ret. f_equal. destruct w as [? ? ? ? ? []]. done.
  - rewrite for_each_cons. unfold bind. unfold assign_text at 1, modify.
    rewrite IH. done.
Qed.

Lemma foldl_insert_lookup (ts : list Element) text (m : gmap nat string) i :
  foldl (λ m t, <[oid t := text]> m) m ts !! i
  = if decide (i ∈ map oid ts) then Some text else m !! i.
Proof.
  revert m. induction ts as [|t ts IH]; intros m; simpl; [done|].
  rewrite IH. destruct (decide (i ∈ map oid ts)) as [Hin|Hnin].
  - rewrite decide_True; [done|]. by right.
  - destruct (decide (i = oid t)) as [->|Hne].
    + rewrite lookup_insert_eq. rewrite decide_True; [done|]. by left.
    + rewrite lookup_insert_ne by done. rewrite decide_False; [done|].
      intros [?|?]%elem_of_cons; done.
Qed.

Lemma W_RPR_not_star : W_RPR ≠ "*".
Proof. discriminate. Qed.
Lemma W_PPR_not_star : W_PPR ≠ "*".
Proof. discriminate. Qed.
Lemma W_T_not_star : W_T ≠ "*".
Proof. discriminate. Qed.

Lemma Element_iter_Some e T :
  T ≠ "*" → Element_iter e (Some T) = filter (λ x, tag x = T) (nodes e).
Proof.
  intros HT. unfold Element_iter. apply String.eqb_neq in HT. rewrite HT.
  apply iter_Some_nodes.
Qed.

(** The elements a loop over [elem.iter(T)] visits. *)
Lemma iter_current h K T n :
  T ≠ "*" →
  n ∈ live (detached h) K → tag n = T →
  current h n ∈ Element_iter (current h K) (Some T).
Proof.
  intros HT Hn Htag. rewrite Element_iter_Some by done.
  apply list_elem_of_filter. split; [by rewrite current_tag|].
  rewrite nodes_current. apply list_elem_of_fmap. by exists n.
Qed.

Lemma iter_current_ids h K T i :
  T ≠ "*" →
  i ∈ map oid (Element_iter (current h K) (Some T)) → i ∈ ids K.
Proof.
  intros HT (x & -> & Hx)%list_elem_of_fmap.
  rewrite Element_iter_Some in Hx by done.
  apply list_elem_of_filter in Hx as [_ Hx]. rewrite nodes_current in Hx.
  apply list_elem_of_fmap in Hx as (n & -> & Hn).
  rewrite current_oid. by eapply live_ids.
Qed.

Lemma strip_inv K T w w' :
  T ≠ "*" →
  strip K T w = (Return tt, w') →
  ∃ h', w' = set_heap h' w
        ∧ texts h' = texts (heap w)
        ∧ detached (heap w) ⊆ detached h'
        ∧ (∀ n, n ∈ live (detached (heap w)) K → tag n = T →
                oid n ∈ detached h')
        ∧ ∀ i, i ∈ detached h' → i ∈ detached (heap w) ∨ i ∈ ids K.
Proof.
  intros HT. unfold strip. intros (cur & w1 & [= <- <-] & Hloop)%bind_inv.
  apply for_each_remove_inv in Hloop as (h' & -> & Ht & Hd). exists h'.
  split; [done|]. split; [done|]. split; [|split].
  - intros i Hi. apply Hd. by left.
  - intros n Hn Htag. apply Hd. right.
    rewrite <- (current_oid (heap w)). apply list_elem_of_fmap.
    eexists. split; [done|]. by apply iter_current.
  - intros i [Hi|Hi]%Hd; [by left|right]. by eapply iter_current_ids.
Qed.

Lemma overwrite_run K text w :
  ∃ h', overwrite K text w = (Return tt, set_heap h' w)
        ∧ detached h' = detached (heap w)
        ∧ (∀ n, n ∈ live (detached (heap w)) K → tag n = W_T →
                texts h' !! oid n = Some text)
        ∧ ∀ i, texts h' !! i = texts (heap w) !! i
               ∨ (texts h' !! i = Some text ∧ i ∈ ids K).
Proof.
  unfold overwrite. erewrite bind_Return; [|reflexivity].
  rewrite for_each_assign.
  eexists. split; [done|]. simpl. split; [done|]. split.
  - intros n Hn Htag. rewrite foldl_insert_lookup. rewrite decide_True; [done|].
    rewrite <- (current_oid (heap w)). apply list_elem_of_fmap.
    eexists. split; [done|]. apply iter_current; [apply W_T_not_star|done..].
  - intros i. rewrite foldl_insert_lookup.
    destruct (decide _) as [Hin|]; [right|by left].
    split; [done|]. eapply iter_current_ids; [apply W_T_not_star|done].
Qed.

Lemma strip_if_inv (b : bool) K T w w' :
  T ≠ "*" →
  (if b then strip K T else ret tt) w = (Return tt, w') →
  ∃ h', w' = set_heap h' w
        ∧ texts h' = texts (heap w)
        ∧ detached (heap w) ⊆ detached h'
        ∧ (b = true → ∀ n, n ∈ live (detached (heap w)) K → tag n = T →
                           oid n ∈ detached h')
        ∧ ∀ i, i ∈ detached h' → i ∈ detached (heap w) ∨ i ∈ ids K.
Proof.
  intros HT. destruct b.
  - intros (h' & -> & Ht & Hs & Hl & Hi)%strip_inv; [|done].
    exists h'. eauto 10.
  - intros [= <-]. exists (heap w). rewrite set_heap_id.
    split; [done|]. split; [done|]. split; [done|]. split; [done|]. eauto.
Qed.

Lemma redacted_no_tag h0 h K T :
  detached h0 ⊆ detached h →
  (∀ n, n ∈ live (detached h0) K → tag n = T → oid n ∈ detached h) →
  tag K ≠ T →
  ∀ n, n ∈ nodes (current h K) → tag n ≠ T.
Proof.
  intros Hsub Hdet HK n'. rewrite nodes_current.
  intros (n & -> & Hn)%list_elem_of_fmap. rewrite current_tag. intros Htag.
  destruct (live_attached _ _ _ Hn) as [->|Hnd]; [done|].
  apply Hnd, Hdet; [|done]. by eapply live_mono.
Qed.

Lemma replace_text_inv K R w w' :
  replace_text_in_run_or_paragraph K R w = (Return tt, w') →
  ∃ h', w' = set_heap h' w
        ∧ redaction_step R (heap w) h'
        ∧ confined (λ i, i ∈ ids K) (heap w) h'
        ∧ redacted R h' K.
Proof.
  rewrite replace_text_unfold.
  intros ([] & w1 & H1 & H')%bind_inv.
  apply bind_inv in H' as ([] & w2 & H2 & H3).
  apply strip_if_inv in H1 as (h1 & -> & Ht1 & Hs1 & Hl1 & Hi1);
    [|apply W_RPR_not_star].
  apply strip_if_inv in H2 as (h2 & -> & Ht2 & Hs2 & Hl2 & Hi2);
    [|apply W_PPR_not_star].
  rewrite set_heap_set_heap in H3. simpl in Ht2, Hs2, Hl2, Hi2.
  destruct (overwrite_run K R (set_heap h2 w)) as (h3 & Hrun & Hd3 & Hl3 & Hi3).
  rewrite Hrun in H3. injection H3 as <-. simpl in Hd3, Hl3, Hi3.
  exists h3. rewrite set_heap_set_heap. split; [done|].
  assert (Hsub : detached (heap w) ⊆ detached h3).
  { rewrite Hd3. set_solver. }
  split; [|split].
  - split; [done|]. intros i.
    destruct (Hi3 i) as [Hi|[Hi _]]; [left; congruence|by right].
  - intros i Hi. split.
    + destruct (Hi3 i) as [Hi'|[_ Hi']]; [congruence|done].
    + rewrite Hd3. split; [|set_solver].
      intros [Hd|Hd]%Hi2; [|done]. by destruct (Hi1 _ Hd).
  - unfold redacted. split; [|split].
    + intros HK. apply (redacted_no_tag (heap w)); [done| |by rewrite HK].
      intros n Hn Htag. rewrite Hd3. apply Hs2, Hl1; [|done..].
      by apply String.eqb_eq.
    + intros HK. apply (redacted_no_tag h1); [rewrite Hd3; set_solver| |by rewrite HK].
      intros n Hn Htag. rewrite Hd3. apply Hl2; [|done..].
      by apply String.eqb_eq.
    + intros n'. rewrite nodes_current.
      intros (n & -> & Hn)%list_elem_of_fmap. rewrite current_tag, current_text.
      intros Htag. unfold text_of. rewrite Hl3; [done| |done].
      by rewrite <- Hd3.
Qed.

(** ** The loop of [redact] *)

Lemma get_run_or_paragraph_world_aux x w :
  get_run_or_paragraph_for_highlight x w
  = (match parent_map w with
     | Some pm => parent_walk (S (size pm)) pm x
     | None => Raise (mk_exception TypeError
                        "'NoneType' object is not subscriptable")
     end, w).
Proof.
  unfold get_run_or_paragraph_for_highlight, bind, gets, lift, raise.
  by destruct (parent_map w).
Qed.

Lemma get_run_or_paragraph_world x w :
  get_run_or_paragraph_for_highlight x w = (resolve w x, w).
Proof.
  unfold resolve, get_run_or_paragraph_for_highlight, bind, gets, lift, raise.
  by destruct (parent_map w).
Qed.

Lemma resolve_touch h out w x : resolve (touch h out w) x = resolve w x.
Proof.
  unfold resolve. by rewrite !get_run_or_paragraph_world_aux.
Qed.

Lemma touch_touch h1 o1 h2 o2 w :
  touch h2 o2 (touch h1 o1 w) = touch h2 o2 w.
Proof. done. Qed.

Lemma touch_id w : touch (heap w) (stdout w) w = w.
Proof. by destruct w. Qed.

Lemma redact_highlight_inv R x w w1 :
  redact_highlight R x w = (Return tt, w1) →
  ∃ h1 out1,
    w1 = touch h1 out1 w
    ∧ redaction_step R (heap w) h1
    ∧ (∀ K, resolve w x = Return (Some K) → redacted R h1 K)
    ∧ confined (λ i, ∃ K, resolve w x = Return (Some K) ∧ i ∈ ids K)
        (heap w) h1.
Proof.
  unfold redact_highlight. intros (run & w0 & Hrun & Hbody)%bind_inv.
  rewrite get_run_or_paragraph_world in Hrun. injection Hrun as Hres <-.
  destruct run as [K|].
  - apply replace_text_inv in Hbody as (h1 & -> & Hstep & Hconf & Hred).
    exists h1, (stdout w). split; [by destruct w|]. split; [done|]. split.
    + intros K' HK'. rewrite Hres in HK'. by injection HK' as <-.
    + eapply confined_weaken; [|exact Hconf]. intros i Hi. by exists K.
  - injection Hbody as <-.
    exists (heap w), (stdout w ++ [skip_message]).
    split; [by destruct w|]. split; [apply redaction_step_refl|]. split.
    + intros K HK. by rewrite Hres in HK.
    + apply confined_refl.
Qed.

Lemma redact_loop_inv R hs w w' :
  for_each hs (redact_highlight R) w = (Return tt, w') →
  ∃ h' out',
    w' = touch h' out' w
    ∧ redaction_step R (heap w) h'
    ∧ (∀ x K, x ∈ hs → resolve w x = Return (Some K) → redacted R h' K)
    ∧ confined (λ i, ∃ x K, x ∈ hs ∧ resolve w x = Return (Some K) ∧ i ∈ ids K)
        (heap w) h'.
Proof.
  revert w. induction hs as [|x hs IH]; intros w.
  - intros [= <-]. exists (heap w), (stdout w). rewrite touch_id.
    split; [done|]. split; [apply redaction_step_refl|]. split.
    + intros x K Hx. by apply elem_of_nil in Hx.
    + apply confined_refl.
  - rewrite for_each_cons. intros ([] & w1 & H1 & H2)%bind_inv.
    apply redact_highlight_inv in H1 as (h1 & o1 & -> & Hs1 & Hr1 & Hc1).
    apply IH in H2 as (h2 & o2 & -> & Hs2 & Hr2 & Hc2).
    simpl in Hs2, Hc2. exists h2, o2. rewrite touch_touch.
    split; [done|]. split; [by eapply redaction_step_trans|]. split.
    + intros y K [->|Hy]%elem_of_cons HK.
      * eapply redacted_stable; [by apply Hr1|done].
      * apply (Hr2 y); [done|]. by rewrite resolve_touch.
    + eapply confined_trans.
      * eapply confined_weaken; [|exact Hc1].
        intros i (K & HK & Hi). exists x, K. split; [by left|done].
      * eapply confined_weaken; [|exact Hc2].
        intros i (y & K & Hy & HK & Hi). rewrite resolve_touch in HK.
        exists y, K. split; [by right|done].
Qed.

Lemma ofilter_color_inv c l hs :
  ofilter (λ h, (v <- dict_getitem (attrib h) W_VAL ;;
                 Return (String.eqb v c))%out) l = Return hs →
  hs = filter (has_color c) l.
Proof.
  revert hs. induction l as [|x l IH]; intros hs; simpl.
  - by intros [= <-].
  - rewrite dict_getitem_color. rewrite filter_cons.
    destruct (color_of x) as [v|] eqn:Hcx; simpl; [|done].
    destruct (ofilter _ l) as [ys| |]; simpl; [|done..].
    intros [= <-]. rewrite <- (IH ys eq_refl).
    destruct (String.eqb_spec v c) as [->|Hne].
    + rewrite decide_True; [done|]. exact Hcx.
    + rewrite decide_False; [done|]. unfold has_color. congruence.
Qed.

Lemma redact_inv c R w w' tree :
  document w = Some tree →
  redact c R w = (Return tt, w') →
  for_each (filter (has_color c) (highlight_markers tree))
    (redact_highlight R) w = (Return tt, w').
Proof.
  intros Hd. unfold redact.
  intros ([] & w0 & Hopen & Hrest)%bind_inv.
  assert (w0 = w) as ->.
  { unfold check_open, bind, gets, ret, raise in Hopen.
    destruct (is_open w); by injection Hopen. }
  apply bind_inv in Hrest as (hs & w1 & Hhs & Hloop).
  rewrite (get_highlights_Some _ _ _ Hd) in Hhs. injection Hhs as Hf <-.
  by rewrite <- (ofilter_color_inv _ _ _ Hf).
Qed.

(** ** Completeness *)

(** When [redact c R] returns, the run or paragraph of every marker of color
    [c] is redacted. *)
Lemma redaction_complete w c R w' tree :
  document w = Some tree →
  redact c R w = (Return tt, w') →
  ∀ h K,
    h ∈ highlight_markers tree →
    color_of h = Some c →
    resolve w h = Return (Some K) →
    redacted R (heap w') K.
Proof.
  intros Hd Hr h K Hh Hc HK.
  apply (redact_inv _ _ _ _ _ Hd) in Hr.
  apply redact_loop_inv in Hr as (h' & out' & -> & _ & Hred & _).
  simpl. apply (Hred h K); [|done].
  apply list_elem_of_filter. by split.
Qed.

(** ** What a call changes, however it ends *)

Lemma bind_cases {A B} (m : Py A) (k : A → Py B) w o w'' :
  bind m k w = (o, w'') →
  (∃ a w', m w = (Return a, w') ∧ k a w' = (o, w''))
  ∨ (∃ o', m w = (o', w'') ∧ (∀ a, o' ≠ Return a) ∧ o = propagate o').
Proof.
  unfold bind. destruct (m w) as [[a|e|] w'].
  - intros H. left. eauto.
  - intros [= <- <-]. right. by exists (Raise e).
  - intros [= <- <-]. right. by exists Diverge.
Qed.

Lemma remove_any elem sub w o w' :
  remove elem sub w = (o, w') →
  ∃ h', w' = set_heap h' w
        ∧ texts h' = texts (heap w)
        ∧ detached (heap w) ⊆ detached h'
        ∧ ∀ i, i ∈ detached h' → i ∈ detached (heap w) ∨ i = oid sub.
Proof.
  unfold remove, bind, gets, lift, modify, Element_remove.
  case_bool_decide.
  - intros [= <- <-]. eexists. split; [done|]. split; [done|]. simpl.
    split; [apply union_subseteq_r|].
    intros i [->%elem_of_singleton|?]%elem_of_union; eauto.
  - intros [= <- <-]. exists (heap w). rewrite set_heap_id. eauto.
Qed.

Lemma for_each_remove_any elem subs w o w' :
  for_each subs (λ sub, remove elem sub) w = (o, w') →
  ∃ h', w' = set_heap h' w
        ∧ texts h' = texts (heap w)
        ∧ detached (heap w) ⊆ detached h'
        ∧ ∀ i, i ∈ detached h' → i ∈ detached (heap w) ∨ i ∈ map oid subs.
Proof.
  revert w. induction subs as [|sub subs IH]; intros w.
  - intros [= <- <-]. exists (heap w). rewrite set_heap_id. eauto.
  - rewrite for_each_cons.
    intros [([] & w1 & H1 & H2)|(o' & H1 & _ & _)]%bind_cases.
    + apply remove_any in H1 as (h1 & -> & Ht1 & Hs1 & Hd1).
      apply IH in H2 as (h2 & -> & Ht2 & Hs2 & Hd2). simpl in Ht2, Hs2, Hd2.
      exists h2. rewrite set_heap_set_heap. split; [done|].
      split; [congruence|]. split; [by etrans|]. intros i [Hi| Hi]%Hd2.
      * destruct (Hd1 i Hi) as [?| ->]; [by left|right; by left].
      * right. by right.
    + apply remove_any in H1 as (h1 & -> & Ht1 & Hs1 & Hd1). exists h1.
      split; [done|]. split; [done|]. split; [done|].
      intros i [?| ->]%Hd1; [by left|]. right. by left.
Qed.

Lemma strip_any K T w o w' :
  T ≠ "*" →
  strip K T w = (o, w') →
  ∃ h', w' = set_heap h' w ∧ confined (λ i, i ∈ ids K) (heap w) h'.
Proof.
  intros HT. unfold strip.
  intros [(cur & w1 & [= <- <-] & Hloop)|(o' & [= <- <-] & Hne & _)]%bind_cases;
    [|by destruct (Hne (current (heap w) K))].
  apply for_each_remove_any in Hloop as (h' & -> & Ht & Hs & Hd). exists h'.
  split; [done|]. intros i Hi. split; [by rewrite Ht|]. split.
  - intros [?|Hin]%Hd; [done|]. destruct Hi. by eapply iter_current_ids.
  - apply Hs.
Qed.

Lemma strip_if_any (b : bool) K T w o w' :
  T ≠ "*" →
  (if b then strip K T else ret tt) w = (o, w') →
  ∃ h', w' = set_heap h' w ∧ confined (λ i, i ∈ ids K) (heap w) h'.
Proof.
  intros HT. destruct b; [by apply strip_any|].
  intros [= <- <-]. exists (heap w). rewrite set_heap_id.
  split; [done|apply confined_refl].
Qed.

Lemma overwrite_any K text w o w' :
  overwrite K text w = (o, w') →
  ∃ h', w' = set_heap h' w ∧ confined (λ i, i ∈ ids K) (heap w) h'.
Proof.
  destruct (overwrite_run K text w) as (h' & -> & Hd & _ & Hi).
  intros [= <- <-]. exists h'. split; [done|]. intros i Hn. split.
  - by destruct (Hi i) as [?|[_ ?]].
  - by rewrite Hd.
Qed.

Lemma replace_text_any K R w o w' :
  replace_text_in_run_or_paragraph K R w = (o, w') →
  ∃ h', w' = set_heap h' w ∧ confined (λ i, i ∈ ids K) (heap w) h'.
Proof.
  rewrite replace_text_unfold.
  intros [([] & w1 & H1 & H')|(o' & H1 & _ & _)]%bind_cases;
    (apply strip_if_any in H1 as (h1 & -> & Hc1); [|apply W_RPR_not_star]);
    [|by eauto].
  apply bind_cases in H' as [([] & w2 & H2 & H3)|(o' & H2 & _ & _)];
    (apply strip_if_any in H2 as (h2 & -> & Hc2); [|apply W_PPR_not_star]);
    rewrite ?set_heap_set_heap in *; simpl in Hc2.
  - apply overwrite_any in H3 as (h3 & -> & Hc3). simpl in Hc3.
    exists h3. rewrite set_heap_set_heap. split; [done|].
    eapply confined_trans; [|exact Hc3]. by eapply confined_trans.
  - exists h2. split; [done|]. by eapply confined_trans.
Qed.

Lemma redact_highlight_any R x w o w1 :
  redact_highlight R x w = (o, w1) →
  ∃ h1 out1,
    w1 = touch h1 out1 w
    ∧ confined (λ i, ∃ K, resolve w x = Return (Some K) ∧ i ∈ ids K)
        (heap w) h1.
Proof.
  unfold redact_highlight.
  intros [(run & w0 & Hrun & Hbody)|(o' & Hrun & _ & _)]%bind_cases;
    rewrite get_run_or_paragraph_world in Hrun; injection Hrun as Hres <-;
    [|exists (heap w), (stdout w); rewrite touch_id;
      split; [done|apply confined_refl]].
  destruct run as [K|].
  - apply replace_text_any in Hbody as (h1 & -> & Hconf).
    exists h1, (stdout w). split; [by destruct w|].
    eapply confined_weaken; [|exact Hconf]. intros i Hi. by exists K.
  - injection Hbody as <- <-.
    exists (heap w), (stdout w ++ [skip_message]).
    split; [by destruct w|apply confined_refl].
Qed.

Lemma redact_loop_any R hs w o w' :
  for_each hs (redact_highlight R) w = (o, w') →
  ∃ h' out',
    w' = touch h' out' w
    ∧ confined (λ i, ∃ x K, x ∈ hs ∧ resolve w x = Return (Some K) ∧ i ∈ ids K)
        (heap w) h'.
Proof.
  revert w. induction hs as [|x hs IH]; intros w.
  - intros [= <- <-]. exists (heap w), (stdout w). rewrite touch_id.
    split; [done|apply confined_refl].
  - rewrite for_each_cons.
    intros [([] & w1 & H1 & H2)|(o' & H1 & _ & _)]%bind_cases;
      apply redact_highlight_any in H1 as (h1 & o1 & -> & Hc1).
    + apply IH in H2 as (h2 & o2 & -> & Hc2). simpl in Hc2.
      exists h2, o2. rewrite touch_touch. split; [done|].
      eapply confined_trans.
      * eapply confined_weaken; [|exact Hc1].
        intros i (K & HK & Hi). exists x, K. split; [by left|done].
      * eapply confined_weaken; [|exact Hc2].
        intros i (y & K & Hy & HK & Hi). rewrite resolve_touch in HK.
        exists y, K. split; [by right|done].
    + exists h1, o1. split; [done|].
      eapply confined_weaken; [|exact Hc1].
      intros i (K & HK & Hi). exists x, K. split; [by left|done].
Qed.

Lemma check_open_world w o w' : check_open w = (o, w') → w' = w.
Proof.
  unfold check_open, bind, gets, ret, raise.
  destruct (is_open w); by intros [= _ <-].
Qed.

Lemma redact_any c R w o w' tree :
  document w = Some tree →
  redact c R w = (o, w') →
  ∃ h' out',
    w' = touch h' out' w
    ∧ confined (λ i, ∃ x K, x ∈ highlight_markers tree ∧ color_of x = Some c
                            ∧ resolve w x = Return (Some K) ∧ i ∈ ids K)
        (heap w) h'.
Proof.
  intros Hd. unfold redact.
  assert (Hsame : ∃ h' out', w = touch h' out' w
     ∧ confined (λ i, ∃ x K, x ∈ highlight_markers tree ∧ color_of x = Some c
                            ∧ resolve w x = Return (Some K) ∧ i ∈ ids K)
        (heap w) h').
  { exists (heap w), (stdout w). rewrite touch_id.
    split; [done|apply confined_refl]. }
  intros [([] & w0 & Hopen & Hrest)|(o' & Hopen & _ & _)]%bind_cases;
    apply check_open_world in Hopen as ->; [|done].
  apply bind_cases in Hrest as [(hs & w1 & Hhs & Hloop)|(o' & Hhs & _ & _)];
    rewrite (get_highlights_Some _ _ _ Hd) in Hhs; injection Hhs as Hf <-;
    [|done].
  apply ofilter_color_inv in Hf as ->.
  apply redact_loop_any in Hloop as (h' & out' & -> & Hc).
  exists h', out'. split; [done|].
  eapply confined_weaken; [|exact Hc].
  intros i (x & K & [Hcx Hx]%list_elem_of_filter & HK & Hi).
  by exists x, K.
Qed.

(** Claim C3, as the code has it.  However [redact c R] ends, a highlight
    marker of another color whose run or paragraph shares no element with
    the run or paragraph of a marker of color [c] is unchanged: every element
    of its run or paragraph (the marker, the properties element that holds
    it, the text elements) reads as before the call. *)
Theorem redaction_frame_any w c R o w' tree :
  document w = Some tree →
  redact c R w = (o, w') →
  ∀ h' K',
    h' ∈ highlight_markers tree →
    color_of h' ≠ Some c →
    resolve w h' = Return (Some K') →
    (∀ h K, h ∈ highlight_markers tree → color_of h = Some c →
            resolve w h = Return (Some K) →
            ∀ i, i ∈ ids K → i ∉ ids K') →
    ∀ n, n ∈ nodes K' → current (heap w') n = current (heap w) n.
Proof.
  intros Hd Hr h' K' _ _ _ Hdisj n Hn.
  apply (redact_any _ _ _ _ _ _ Hd) in Hr as (h1 & out1 & -> & Hconf).
  simpl. apply current_ext. intros i Hi. apply Hconf.
  intros (x & K & Hx & Hc & HK & HiK).
  apply (Hdisj x K Hx Hc HK i HiK).
  destruct (proj1 (list_elem_of_fmap _ _ _) Hi) as (m & -> & Hm).
  apply list_elem_of_fmap. exists m. split; [done|]. by eapply nodes_trans.
Qed.

(** ** The parent walk on a parsed tree *)

Lemma allocate_oid n e : oid (allocate n e).1 = n.
Proof.
  destruct e as [i t a tx tl cs]. simpl.
  match goal with |- context [?f cs (S n)] => by destruct (f cs (S n)) end.
Qed.

(** In a parsed tree a child is numbered after its parent. *)
Lemma allocate_children_lt e :
  ∀ n p c, p ∈ nodes (allocate n e).1 → c ∈ children p → oid p < oid c.
Proof.
  induction e as [e IH] using Element_induction. intros n.
  destruct e as [i t a tx tl cs]. simpl in IH. simpl.
  match goal with |- context [?f cs (S n)] => set (step := f) end.
  assert (∀ m c', c' ∈ (step cs m).1 →
                  ∃ c m', c ∈ cs ∧ m ≤ m' ∧ c' = (allocate m' c).1) as Hstep.
  { clear. induction cs as [|c cs IHcs]; intros m c'; simpl.
    { by intros ?%elem_of_nil. }
    pose proof (proj1 (allocate_ids c m)) as Hnext.
    destruct (allocate m c) as [c1 m1] eqn:Hal. simpl in Hnext.
    specialize (IHcs m1).
    destruct (step cs m1) as [cs2 m2] eqn:Hst. simpl in *.
    intros [->|Hin]%elem_of_cons.
    - exists c, m. rewrite Hal. split; [by left|]. split; [lia|done].
    - destruct (IHcs c' Hin) as (c0 & m' & Hc0 & Hm' & ->).
      exists c0, m'. split; [by right|]. split; [lia|done]. }
  specialize (Hstep (S n)).
  destruct (step cs (S n)) as [cs' n'] eqn:Hst. simpl in *.
  intros p c [->|Hp]%elem_of_cons Hc.
  - simpl in Hc. destruct (Hstep c Hc) as (c0 & m' & _ & Hm' & ->).
    rewrite allocate_oid. simpl. lia.
  - apply list_elem_of_In, in_flat_map in Hp as (c' & Hc'%list_elem_of_In & Hp%list_elem_of_In).
    destruct (Hstep c' Hc') as (c0 & m' & Hc0 & _ & ->).
    rewrite Forall_forall in IH. by apply (IH c0 Hc0 m').
Qed.

(** Every entry of the parent index maps a child to its parent. *)
Lemma build_parent_map_lookup root i p :
  build_parent_map root !! i = Some p →
  ∃ c, p ∈ nodes root ∧ c ∈ children p ∧ oid c = i.
Proof.
  unfold build_parent_map, Element_iter. rewrite iter_None_nodes.
  assert (∀ (l : list (Element * Element)) (m : gmap nat Element),
            foldl (λ m cp, <[oid cp.1 := cp.2]> m) m l !! i = Some p →
            m !! i = Some p ∨ ∃ c, (c, p) ∈ l ∧ oid c = i) as Hfold.
  { induction l as [|[c q] l IHl]; intros m; simpl; [by left|].
    intros [Hm|(c' & Hin & Hc')]%IHl.
    - destruct (decide (oid c = i)) as [Heq|Hne].
      + rewrite <- Heq, lookup_insert_eq in Hm. injection Hm as ->.
        right. exists c. split; [by left|done].
      + rewrite lookup_insert_ne in Hm by done. by left.
    - right. exists c'. split; [by right|done]. }
  intros [Hm|(c & Hin & Hc)]%Hfold; [by rewrite lookup_empty in Hm|].
  exists c.
  apply list_elem_of_In, in_flat_map in Hin as (q & Hq%list_elem_of_In & Hin).
  apply in_map_iff in Hin as (c' & [= -> ->] & Hc'%list_elem_of_In). done.
Qed.

(** When every parent link goes to a smaller identity, the walk ends. *)
Lemma walk_decreasing pm :
  (∀ i p, pm !! i = Some p → oid p < i) →
  ∀ e, ∃ n x, walk pm n e x.
Proof.
  intros Hlt e. remember (oid e) as k eqn:Hk. revert e Hk.
  induction k as [k IH] using lt_wf_ind. intros e ->.
  destruct (pm !! oid e) as [p|] eqn:He; [|exists 0, None; by apply walk_end].
  destruct (decide (tag p = W_R)) as [Hr|Hr];
    [exists 0, (Some p); apply walk_found; auto|].
  destruct (decide (tag p = W_P)) as [Hp|Hp];
    [exists 0, (Some p); apply walk_found; auto|].
  destruct (IH (oid p) (Hlt _ _ He) p eq_refl) as (n & x & Hw).
  exists (S n), x. by apply walk_up with p.
Qed.

(** After [open], [get_run_or_paragraph_for_highlight] comes back on every
    element: with [None] or with a run or paragraph. *)
Lemma open_resolves w p w1 h :
  open p w = (Return tt, w1) → ∃ x, resolve w1 h = Return x.
Proof.
  intros (z & info & payload & tree & _ & _ & _ & ->)%open_inv.
  unfold resolve.
  erewrite get_run_or_paragraph_run by reflexivity. cbn [fst].
  rewrite current_empty.
  set (pm := build_parent_map (allocate 0 tree).1).
  destruct (walk_decreasing pm) with (e := h) as (n & x & Hw).
  - intros i q (c & Hq & Hc & <-)%build_parent_map_lookup.
    by eapply allocate_children_lt.
  - exists x. apply (walk_parent_walk _ _ _ _ Hw).
    pose proof (walk_bound _ _ _ _ Hw). lia.
Qed.

(* ================================================================== *)
(** * The sample documents *)
(* ================================================================== *)




(** Claim C2 fails on a run whose properties record a tracked change.  The
    yellow marker of the document resolves to its run; [redact] removes the
    run properties, then raises [ValueError] at the run properties nested in
    [w:rPrChange], which are no child of the run; the text of the run is
    still [secret], so the run is not redacted. *)
Theorem redact_nested_properties :
  let w := opened tracked_change_xml in
  let tree := (allocate 0 tracked_change).1 in
  let h := node_at tree 5 in
  let K := node_at tree 3 in
  let after := redact "yellow" "[REDACTED]" w in
  document w = Some tree
  ∧ h ∈ highlight_markers tree
  ∧ color_of h = Some "yellow"
  ∧ resolve w h = Return (Some K)
  ∧ after.1 = Raise (mk_exception ValueError "list.remove(x): x not in list")
  ∧ text (current (heap after.2) (node_at tree 8)) = Some "secret"
  ∧ ¬ redacted "[REDACTED]" (heap after.2) K.
Proof.
  cbv zeta.
  split; [reflexivity|]. split; [member|]. split; [reflexivity|].
  split; [reflexivity|]. split; [vm_compute; reflexivity|].
  split; [vm_compute; reflexivity|].
  intros (_ & _ & Ht).
  specialize (Ht (current (heap (redact "yellow" "[REDACTED]"
                                   (opened tracked_change_xml)).2)
                    (node_at (allocate 0 tracked_change).1 8))).
  assert (Some "secret" = Some "[REDACTED]") as Habs; [|discriminate Habs].
  apply Ht; [member|reflexivity].
Qed.

(** Claim C3 as amended, on the document with a yellow and a green run:
    redacting yellow leaves the green run as it was. *)
Lemma redaction_frame_any_witness :
  let w := opened two_runs_xml in
  let tree := (allocate 0 two_runs).1 in
  let w' := (redact "yellow" "[REDACTED]" w).2 in
  color_of (node_at tree 9) = Some "green"
  ∧ resolve w (node_at tree 9) = Return (Some (node_at tree 7))
  ∧ Forall (λ n, current (heap w') n = current (heap w) n)
      (nodes (node_at tree 7)).
Proof.
  cbv zeta. split; [reflexivity|]. split; [reflexivity|].
  apply Forall_forall. intros n Hn.
  eapply (redaction_frame_any (opened two_runs_xml) "yellow" "[REDACTED]" _ _
            (allocate 0 two_runs).1 eq_refl (surjective_pairing _)
            (node_at (allocate 0 two_runs).1 9)
            (node_at (allocate 0 two_runs).1 7)).
  - member.
  - discriminate.
  - reflexivity.
  - intros h K Hh Hc Hr i Hi Hi'.
    each_member Hh; subst h.
    + vm_compute in Hr. injection Hr as <-.
      each_member Hi; subst i; each_member Hi'; discriminate.
    + discriminate Hc.
  - exact Hn.
Defined.

(** Claim C3 fails as stated: when the mark of a paragraph is highlighted
    yellow, redacting yellow overwrites the text of a run of that paragraph
    that is highlighted green. *)
Lemma paragraph_mark_redaction :
  let w := opened paragraph_mark_xml in
  let tree := (allocate 0 paragraph_mark).1 in
  let after := redact "yellow" "[REDACTED]" w in
  document w = Some tree
  ∧ after.1 = Return tt
  ∧ node_at tree 8 ∈ highlight_markers tree
  ∧ color_of (node_at tree 8) = Some "green"
  ∧ resolve w (node_at tree 8) = Return (Some (node_at tree 6))
  ∧ node_at tree 9 ∈ nodes (node_at tree 6)
  ∧ text (current (heap w) (node_at tree 9)) = Some "secret2"
  ∧ text (current (heap after.2) (node_at tree 9)) = Some "[REDACTED]".
Proof.
  cbv zeta. split; [reflexivity|]. split; [vm_compute; reflexivity|].
  split; [member|]. split; [reflexivity|]. split; [reflexivity|].
  split; [member|]. split; vm_compute; reflexivity.
Qed.



(** Claim C5 on the document with a yellow and a green run; the match is
    case-sensitive. *)
Lemma get_highlights_spec_witness :
  let w := opened two_runs_xml in
  let tree := (allocate 0 two_runs).1 in
  get_highlights None w = (Return [node_at tree 5; node_at tree 9], w)
  ∧ get_highlights (Some "green") w = (Return [node_at tree 9], w)
  ∧ get_highlights (Some "Green") w = (Return [], w).
Proof.
  cbv zeta.
  destruct (get_highlights_spec (opened two_runs_xml) (allocate 0 two_runs).1)
    as [Hall Hcolor].
  - reflexivity.
  - intros h Hh. each_member Hh; subst h; eexists; reflexivity.
  - rewrite Hall, !Hcolor. repeat split.
Defined.

(** Claim C5 fails as stated: on an open document with a marker that has no
    [w:val], no marker is yellow, yet [get_highlights] with color yellow
    raises [KeyError] and returns no sequence. *)
Lemma get_highlights_missing_color :
  let w := opened missing_color_xml in
  let tree := (allocate 0 missing_color).1 in
  is_open w = true
  ∧ document w = Some tree
  ∧ filter (has_color "yellow") (highlight_markers tree) = []
  ∧ (get_highlights (Some "yellow") w).1
    = Raise (mk_exception KeyError (repr W_VAL)).
Proof. cbv zeta. repeat split. Qed.

(** Claim C6 on the document with a yellow and a green run. *)
Lemma get_all_colors_spec_witness :
  let w := opened two_runs_xml in
  get_all_colors w = (Return ["green"; "yellow"], w)
  ∧ Sorted String.le ["green"; "yellow"]
  ∧ NoDup ["green"; "yellow"].
Proof.
  cbv zeta.
  destruct (get_all_colors_spec (opened two_runs_xml) (allocate 0 two_runs).1)
    as (colors & Hrun & Hsorted & Hnodup & _).
  - reflexivity.
  - reflexivity.
  - (intros h Hh; each_member Hh; subst h; eexists; reflexivity).
  - assert ((get_all_colors (opened two_runs_xml)).1
            = Return ["green"; "yellow"]) as Heval by (vm_compute; reflexivity).
    rewrite Hrun in Heval.
    injection Heval as ->.
    split; [exact Hrun|]. split; assumption.
Defined.

(** Claim C6 fails as stated: on an open document with a marker that has no
    [w:val], [get_all_colors] raises [KeyError] and returns no list. *)
Lemma get_all_colors_missing_color :
  let w := opened missing_color_xml in
  is_open w = true
  ∧ (get_all_colors w).1 = Raise (mk_exception KeyError (repr W_VAL))
  ∧ ¬ ∃ colors, (get_all_colors w).1 = Return colors.
Proof.
  cbv zeta. split; [reflexivity|]. split; [vm_compute; reflexivity|].
  intros [colors H]. vm_compute in H. discriminate H.
Qed.

(** Claim C7 on the document with a marker directly under the body: [redact]
    returns, has printed one line, and has redacted the run that follows. *)
Lemma unresolved_highlight_skipped_witness :
  let w := opened orphan_highlight_xml in
  let tree := (allocate 0 orphan_highlight).1 in
  let after := redact "yellow" "[REDACTED]" w in
  get_run_or_paragraph_for_highlight (node_at tree 2) w = (Return None, w)
  ∧ after.1 = Return tt
  ∧ stdout after.2 = [skip_message]
  ∧ text (current (heap after.2) (node_at tree 7)) = Some "[REDACTED]".
Proof.
  cbv zeta.
  destruct (unresolved_highlight_skipped (opened orphan_highlight_xml)
              (build_parent_map (allocate 0 orphan_highlight).1) 2
              (node_at (allocate 0 orphan_highlight).1 2))
    as [Hfind Hloop].
  - reflexivity.
  - eapply walk_up; [reflexivity|discriminate|discriminate|].
    eapply walk_up; [reflexivity|discriminate|discriminate|].
    apply walk_end. reflexivity.
  - split; [exact Hfind|]. vm_compute. repeat split.
Defined.

(** Claim C10 on the document whose only marker has no [w:val]. *)
Lemma missing_color_raises_witness :
  let w := opened missing_color_xml in
  get_all_colors w = (Raise (mk_exception KeyError (repr W_VAL)), w)
  ∧ get_highlights (Some "yellow") w
    = (Raise (mk_exception KeyError (repr W_VAL)), w).
Proof.
  cbv zeta.
  destruct (missing_color_raises (opened missing_color_xml)
              (allocate 0 missing_color).1)
    as [Hcolors Hhighlights].
  - reflexivity.
  - reflexivity.
  - exists (node_at (allocate 0 missing_color).1 5). split; [member|reflexivity].
  - split; [exact Hcolors|apply Hhighlights].
Defined.

(** Claim C9 on the document whose text element carries [xml:space]: the
    attribute is written [xml:space], the element [w:t]. *)
Lemma namespace_fidelity_witness :
  let w := opened preserved_space_xml in
  let tree := (allocate 0 preserved_space).1 in
  ET_tostring tree w = (Return (written_document tree), w)
  ∧ written_name (qualified XML_NS "space") = "xml:space"
  ∧ written_name W_T = "w:t".
Proof.
  cbv zeta.
  destruct (namespace_fidelity (opened preserved_space_xml)
              (allocate 0 preserved_space).1 (allocate 0 preserved_space).1)
    as (Hts & _ & _).
  - apply opened_installed.
  - vm_compute. reflexivity.
  - vm_compute. reflexivity.
  - apply documentedb_sound. vm_compute. reflexivity.
  - split; [exact Hts|]. split; reflexivity.
Defined.

(** The scenario of the specification in full: redacting yellow returns,
    the yellow run has lost its properties and reads the replacement, and
    nothing is printed. *)
Lemma two_runs_redaction :
  let w := opened two_runs_xml in
  let tree := (allocate 0 two_runs).1 in
  let after := redact "yellow" "[REDACTED]" w in
  after.1 = Return tt
  ∧ stdout after.2 = []
  ∧ redacted "[REDACTED]" (heap after.2) (node_at tree 3)
  ∧ map tag (nodes (current (heap after.2) (node_at tree 3))) = [W_R; W_T]
  ∧ text (current (heap after.2) (node_at tree 6)) = Some "[REDACTED]"
  ∧ text (current (heap after.2) (node_at tree 10)) = Some "secret2".
Proof.
  cbv zeta. split; [vm_compute; reflexivity|]. split; [vm_compute; reflexivity|].
  split; [|vm_compute; repeat split].
  eapply (redaction_complete (opened two_runs_xml) "yellow" "[REDACTED]" _
            (allocate 0 two_runs).1 eq_refl);
    [|member|reflexivity|reflexivity].
  assert ((redact "yellow" "[REDACTED]" (opened two_runs_xml)).1 = Return tt)
    as H by (vm_compute; reflexivity).
  destruct (redact "yellow" "[REDACTED]" (opened two_runs_xml)) as [o w'].
  simpl in H. by subst o.
Qed.

(** Why the archive invariant is assumed: when two members share a name,
    [update_zip] copies both with the payload of the later one. *)
Lemma duplicate_names_take_last_payload :
  let z := {| filelist := [ (sample_info "a.txt", "first");
                            (sample_info "word/document.xml", "<doc/>");
                            (sample_info "a.txt", "second") ];
              comment := EmptyString |} in
  let w := set_files {["report.docx" := ZipArchive z]} (opened two_runs_xml) in
  (update_zip "report.docx" (sample_info "word/document.xml") "<new/>" w).1
  = Return (_open_to_write (sample_info "word/document.xml"))
  ∧ saved_archive
      (update_zip "report.docx" (sample_info "word/document.xml") "<new/>" w).2
    = Some {| filelist :=
                [ (rewritten_info (sample_info "a.txt"), "second");
                  (rewritten_info (sample_info "a.txt"), "second");
                  (rewritten_info (sample_info "word/document.xml"),
                   "<new/>") ];
              comment := EmptyString |}.
Proof. cbv zeta. split; vm_compute; reflexivity. Qed.

(** Why the names of the tree are assumed to be documented: an element in a
    namespace outside the table is written with a generated prefix, and the
    namespace is not declared. *)
Lemma foreign_namespace_generated_prefix :
  let w := opened foreign_namespace_xml in
  installed w
  ∧ (ET_tostring (allocate 0 foreign_namespace).1 w).1
    = Return ("<w:document" +:+
              xmlns_declarations (flipped_namespaces namespaces) +:+
              "><w:body><ns1:note /></w:body></w:document>").
Proof.
  cbv zeta. split; [apply opened_installed|]. vm_compute. reflexivity.
Qed.
